(** * zz_experiments.ipynb: the multi-token-prediction training notebook

    A shallow embedding of the notebook's cells: the configuration (cell 3),
    the distributed-data-parallel set-up (cell 5), the resuming from a
    checkpoint (cell 9), the learning-rate schedule (cell 12), the window
    inspection (cells 14 to 18) and the training loop (cell 21).

    Conventions.
    - Python [int] values are [Z]; [%] and [//] are [Z.modulo] and [Z.div]
      (both round towards minus infinity, as Python does) and raise
      [ZeroDivisionError] on a zero divisor.
    - Python [float] values and the items of scalar tensors are the
      canonical rationals [Qc]: rounding, infinities and NaN are not
      modelled, and neither is the [OverflowError] of an int too large
      to be converted to a float.
    - A Python exception is a value of [exn]; a fallible computation
      returns [result].
    - Calls into torch that the notebook treats as black boxes (the
      network, AdamW, gradient clipping, the cosine) are the fields of the
      record [Torch]. *)

From Stdlib Require Import ZArith QArith Qcanon Lia.
From stdpp Require Import base numbers option list strings gmap.

Local Open Scope Z_scope.

(** ** Python primitives *)

Inductive exn : Type :=
  | ZeroDivisionError
  | AssertionError
  | NameError (name : string)
  | KeyError (key : string)
  | RuntimeError.

Inductive result (A : Type) : Type :=
  | Ok (a : A)
  | Raise (e : exn).
Arguments Ok {A} a.
Arguments Raise {A} e.

Global Instance result_ret : MRet result := λ A a, Ok a.
Global Instance result_bind : MBind result := λ A B k r,
  match r with
  | Ok a => k a
  | Raise e => Raise e
  end.

(** [a % b] on ints. *)
Definition py_mod (a b : Z) : result Z :=
  if decide (b = 0) then Raise ZeroDivisionError else Ok (a `mod` b).

(** [a // b] on ints. *)
Definition py_floordiv (a b : Z) : result Z :=
  if decide (b = 0) then Raise ZeroDivisionError else Ok (a `div` b).

(** [assert b]. *)
Definition py_assert (b : bool) : result unit :=
  if b then Ok tt else Raise AssertionError.

(** [d[k]] on a dict. *)
Definition py_getitem {V : Type} (d : gmap string V) (k : string) : result V :=
  match d !! k with
  | Some v => Ok v
  | None => Raise (KeyError k)
  end.

(** [range(n)]. *)
Definition range (n : Z) : list Z := Z.of_nat <$> seq 0 (Z.to_nat n).

(** ** Cell 5: distributed-data-parallel set-up

    [environ] is [os.environ] with every value already read through
    [int(...)]. *)

Record ddp_setup : Type := {
  ddp : bool;
  ddp_world_size : Z;
  master_process : bool;
  seed_offset : Z;
  gradient_accumulation_steps : Z;
  tokens_per_iter : Z
}.

Definition cell5 (environ : gmap string Z)
    (gradient_accumulation_steps0 batch_size max_seq_len : Z) : result ddp_setup :=
  let ddp := bool_decide (default (-1) (environ !! "RANK") ≠ -1) in
  if ddp then
    ddp_rank ← py_getitem environ "RANK";
    ddp_local_rank ← py_getitem environ "LOCAL_RANK";
    ddp_world_size ← py_getitem environ "WORLD_SIZE";
    let master_process := bool_decide (ddp_rank = 0) in
    let seed_offset := ddp_rank in
    r ← py_mod gradient_accumulation_steps0 ddp_world_size;
    py_assert (bool_decide (r = 0));;
    gas ← py_floordiv gradient_accumulation_steps0 ddp_world_size;
    Ok {| ddp := true; ddp_world_size := ddp_world_size;
          master_process := master_process; seed_offset := seed_offset;
          gradient_accumulation_steps := gas;
          tokens_per_iter := gas * ddp_world_size * batch_size * max_seq_len |}
  else
    Ok {| ddp := false; ddp_world_size := 1;
          master_process := true; seed_offset := 0;
          gradient_accumulation_steps := gradient_accumulation_steps0;
          tokens_per_iter :=
            gradient_accumulation_steps0 * 1 * batch_size * max_seq_len |}.

(** ** Tensors and autograd

    A tensor is the flat list of its entries.  A scalar that is attached to
    the autograd graph carries its value and its derivative with respect to
    the model parameters; dividing or multiplying it by a constant does the
    same to both, and [backward] adds the derivative into the [.grad]
    buffers ([None] while the buffers are unset). *)

Abbreviation tensor := (list Qc).

(** [a + b], [a / c] and [a * c] for a number [c]. *)
Definition tensor_add (a b : tensor) : tensor := zip_with Qcplus a b.
Definition tensor_div (a : tensor) (c : Qc) : tensor := (λ x, (x / c)%Qc) <$> a.
Definition tensor_mul (a : tensor) (c : Qc) : tensor := (λ x, (x * c)%Qc) <$> a.

Record scalar : Type := { item : Qc; d_params : tensor }.

Definition scalar_div (l : scalar) (c : Qc) : scalar :=
  {| item := (item l / c)%Qc; d_params := tensor_div (d_params l) c |}.

Definition scalar_mul (l : scalar) (c : Qc) : scalar :=
  {| item := (item l * c)%Qc; d_params := tensor_mul (d_params l) c |}.

(** Adding a gradient into the [.grad] buffers. *)
Definition accumulate (grad : option tensor) (g : tensor) : option tensor :=
  match grad with
  | None => Some g
  | Some a => Some (tensor_add a g)
  end.

Definition backward (l : scalar) (grad : option tensor) : option tensor :=
  accumulate grad (d_params l).

(** [losses.mean()] of a one-dimensional tensor (of an empty one torch
    returns NaN; here it is 0). *)
Definition mean (l : list Qc) : Qc :=
  (foldr Qcplus 0 l / Qc_of_Z (Z.of_nat (length l)))%Qc.

(** ** The torch interface used by the notebook *)

Record Torch : Type := {
  Batch : Type;
  OptState : Type;
  (** [model(X, Y)] followed by [raw_model.last_loss], in training or in
      evaluation mode *)
  last_loss : bool → tensor → Batch → scalar;
  (** [optimizer.step()]: state, learning rate, parameters, gradients *)
  adamw_step : OptState → Qc → tensor → option tensor → OptState * tensor;
  (** [torch.nn.utils.clip_grad_norm_] *)
  clip_grad_norm_ : option tensor → Qc → option tensor;
  (** [math.cos(math.pi * x)] *)
  cos_pi : Qc → Qc;
  (** the new scale chosen by [GradScaler.update] *)
  scaler_update : Qc → Qc;
  (** the gradient averaging DDP performs across processes *)
  all_reduce : tensor → tensor;
  (** the [k]-th batch of a fresh [iter_batches(split=...)] iterator *)
  iter_batches : string → nat → Batch
}.

(** ** Cell 3: configuration *)

Record config : Type := {
  eval_interval : Z;
  log_interval : Z;
  eval_iters : Z;
  eval_only : bool;
  always_save_checkpoint : bool;
  wandb_log : bool;
  learning_rate : Qc;
  max_iters : Z;
  grad_clip : Qc;
  decay_lr : bool;
  warmup_iters : Z;
  lr_decay_iters : Z;
  min_lr : Qc;
  dtype : string;
  (** what cell 5 derived *)
  setup : ddp_setup
}.

(** ** Cell 21: the training loop

    What the loop does to the outside world is recorded as events. *)

Inductive event : Type :=
  (** [estimate_loss()] and the [print] that follows it *)
  | EvEval (it : Z) (train val : Qc)
  | EvWandb (it : Z)
  (** [torch.save(checkpoint, ".../ckpt.pt")] *)
  | EvSave (it : Z) (best : Qc)
  (** [model_export(raw_model, ".../model.bin", version=0)] *)
  | EvExport (it : Z)
  (** [model(X, Y)] on the batch of that index in the training stream *)
  | EvForward (it micro_step : Z) (batch : nat)
  (** [scaler.scale(loss).backward()]: the scalar handed to [backward], and
      whether this backward pass synchronised gradients across processes *)
  | EvBackward (it micro_step : Z) (l : scalar) (sync : bool)
  (** [scaler.step(optimizer)] *)
  | EvStep (it : Z)
  (** the [print] of the log line *)
  | EvLog (it : Z) (lossf : Qc).

(** The variables the loop reads and writes. *)
Record state (T : Torch) : Type := {
  iter_num : Z;
  local_iter_num : Z;
  best_val_loss : Qc;
  (** [raw_model.state_dict()] *)
  params : tensor;
  (** the [.grad] buffers of the parameters *)
  grad : option tensor;
  (** [model.require_backward_grad_sync] *)
  require_backward_grad_sync : bool;
  (** [optimizer.state] and the ["lr"] entry of the parameter groups *)
  opt_state : OptState T;
  opt_lr : Qc;
  (** the current scale of [scaler] *)
  scale : Qc;
  (** the global [loss]; unbound until the first micro-step *)
  loss : option scalar;
  (** the global [config]; the keys of the dict if the name is bound *)
  config_dict : option (list string);
  (** [X, Y]: the index of the current batch in [train_batch_iter] *)
  batch_index : nat;
  (** the events so far, latest first *)
  trace : list event
}.
Arguments iter_num {T} s.
Arguments local_iter_num {T} s.
Arguments best_val_loss {T} s.
Arguments params {T} s.
Arguments grad {T} s.
Arguments require_backward_grad_sync {T} s.
Arguments opt_state {T} s.
Arguments opt_lr {T} s.
Arguments scale {T} s.
Arguments loss {T} s.
Arguments config_dict {T} s.
Arguments batch_index {T} s.
Arguments trace {T} s.

(** How one pass through the loop body ends. *)
Inductive outcome (S : Type) : Type :=
  | Continue (s : S)
  | Break (s : S)
  | Raised (e : exn) (s : S).
Arguments Continue {S} s.
Arguments Break {S} s.
Arguments Raised {S} e s.

Definition outcome_state {S : Type} (o : outcome S) : S :=
  match o with
  | Continue s | Break s | Raised _ s => s
  end.

(** Sequencing of statements: [Break] and [Raised] skip what follows. *)
Definition and_then {S : Type} (o : outcome S) (k : S → outcome S) : outcome S :=
  match o with
  | Continue s => k s
  | _ => o
  end.

(** An expression that may raise, evaluated in state [s]. *)
Definition eval_in {S A : Type} (s : S) (r : result A) (k : A → outcome S) : outcome S :=
  match r with
  | Ok a => k a
  | Raise e => Raised e s
  end.

(** Relation [R] holds between the state a statement starts in and the
    state it ends in, however it ends. *)
Definition preserves {S : Type} (R : relation S) (f : S → outcome S) : Prop :=
  ∀ s, R s (outcome_state (f s)).

(** How the [while True] loop ends. *)
Inductive final (S : Type) : Type :=
  | Exited (s : S)
  | Crashed (e : exn) (s : S).
Arguments Exited {S} s.
Arguments Crashed {S} e s.

Definition final_state {S : Type} (f : final S) : S :=
  match f with
  | Exited s | Crashed _ s => s
  end.

(** The events of one kind in a trace, oldest first. *)
Definition project {A : Type} (f : event → option A) (tr : list event) : list A :=
  omap f (reverse tr).

Definition steps_of : list event → list Z :=
  project (λ e, match e with EvStep it => Some it | _ => None end).

Definition evals_of : list event → list Z :=
  project (λ e, match e with EvEval it _ _ => Some it | _ => None end).

Definition saves_of : list event → list Z :=
  project (λ e, match e with EvSave it _ => Some it | _ => None end).

Definition exports_of : list event → list Z :=
  project (λ e, match e with EvExport it => Some it | _ => None end).

(** The micro-step and the synchronisation flag of every backward pass. *)
Definition syncs_of : list event → list (Z * bool) :=
  project (λ e, match e with EvBackward _ k _ b => Some (k, b) | _ => None end).

(** Forward passes, backward passes and optimizer steps. *)
Definition is_compute (e : event) : bool :=
  match e with
  | EvForward _ _ _ | EvBackward _ _ _ _ | EvStep _ => true
  | _ => false
  end.

(** [tr'] is [tr] with events added that are no computation. *)
Inductive quiet_ext (tr : list event) : list event → Prop :=
  | quiet_refl : quiet_ext tr tr
  | quiet_cons (e : event) (tr' : list event) :
      is_compute e = false → quiet_ext tr tr' → quiet_ext tr (e :: tr').

Section Loop.
Context (T : Torch) (cfg : config).

Local Abbreviation state := (state T).

Definition set_lr (lr : Qc) (s : state) : state :=
  {| iter_num := iter_num s; local_iter_num := local_iter_num s;
     best_val_loss := best_val_loss s; params := params s; grad := grad s;
     require_backward_grad_sync := require_backward_grad_sync s;
     opt_state := opt_state s; opt_lr := lr; scale := scale s;
     loss := loss s; config_dict := config_dict s;
     batch_index := batch_index s; trace := trace s |}.

Definition set_best_val_loss (v : Qc) (s : state) : state :=
  {| iter_num := iter_num s; local_iter_num := local_iter_num s;
     best_val_loss := v; params := params s; grad := grad s;
     require_backward_grad_sync := require_backward_grad_sync s;
     opt_state := opt_state s; opt_lr := opt_lr s; scale := scale s;
     loss := loss s; config_dict := config_dict s;
     batch_index := batch_index s; trace := trace s |}.

Definition emit (e : event) (s : state) : state :=
  {| iter_num := iter_num s; local_iter_num := local_iter_num s;
     best_val_loss := best_val_loss s; params := params s; grad := grad s;
     require_backward_grad_sync := require_backward_grad_sync s;
     opt_state := opt_state s; opt_lr := opt_lr s; scale := scale s;
     loss := loss s; config_dict := config_dict s;
     batch_index := batch_index s; trace := e :: trace s |}.

Definition set_sync (b : bool) (s : state) : state :=
  {| iter_num := iter_num s; local_iter_num := local_iter_num s;
     best_val_loss := best_val_loss s; params := params s; grad := grad s;
     require_backward_grad_sync := b;
     opt_state := opt_state s; opt_lr := opt_lr s; scale := scale s;
     loss := loss s; config_dict := config_dict s;
     batch_index := batch_index s; trace := trace s |}.

Definition set_loss (l : scalar) (s : state) : state :=
  {| iter_num := iter_num s; local_iter_num := local_iter_num s;
     best_val_loss := best_val_loss s; params := params s; grad := grad s;
     require_backward_grad_sync := require_backward_grad_sync s;
     opt_state := opt_state s; opt_lr := opt_lr s; scale := scale s;
     loss := Some l; config_dict := config_dict s;
     batch_index := batch_index s; trace := trace s |}.

Definition next_batch (s : state) : state :=
  {| iter_num := iter_num s; local_iter_num := local_iter_num s;
     best_val_loss := best_val_loss s; params := params s; grad := grad s;
     require_backward_grad_sync := require_backward_grad_sync s;
     opt_state := opt_state s; opt_lr := opt_lr s; scale := scale s;
     loss := loss s; config_dict := config_dict s;
     batch_index := S (batch_index s); trace := trace s |}.

Definition set_grad (g : option tensor) (s : state) : state :=
  {| iter_num := iter_num s; local_iter_num := local_iter_num s;
     best_val_loss := best_val_loss s; params := params s; grad := g;
     require_backward_grad_sync := require_backward_grad_sync s;
     opt_state := opt_state s; opt_lr := opt_lr s; scale := scale s;
     loss := loss s; config_dict := config_dict s;
     batch_index := batch_index s; trace := trace s |}.

Definition set_optimized (o : OptState T) (p : tensor) (s : state) : state :=
  {| iter_num := iter_num s; local_iter_num := local_iter_num s;
     best_val_loss := best_val_loss s; params := p; grad := grad s;
     require_backward_grad_sync := require_backward_grad_sync s;
     opt_state := o; opt_lr := opt_lr s; scale := scale s;
     loss := loss s; config_dict := config_dict s;
     batch_index := batch_index s; trace := trace s |}.

Definition set_scale (c : Qc) (s : state) : state :=
  {| iter_num := iter_num s; local_iter_num := local_iter_num s;
     best_val_loss := best_val_loss s; params := params s; grad := grad s;
     require_backward_grad_sync := require_backward_grad_sync s;
     opt_state := opt_state s; opt_lr := opt_lr s; scale := c;
     loss := loss s; config_dict := config_dict s;
     batch_index := batch_index s; trace := trace s |}.

Definition incr_iter (s : state) : state :=
  {| iter_num := iter_num s + 1; local_iter_num := local_iter_num s + 1;
     best_val_loss := best_val_loss s; params := params s; grad := grad s;
     require_backward_grad_sync := require_backward_grad_sync s;
     opt_state := opt_state s; opt_lr := opt_lr s; scale := scale s;
     loss := loss s; config_dict := config_dict s;
     batch_index := batch_index s; trace := trace s |}.

(** *** Cell 12: [estimate_loss] and [get_lr] *)

(** The loop over [range(eval_iters)] for one split, and its mean. *)
Definition estimate_split (p : tensor) (split : string) : Qc :=
  mean ((λ k, item (last_loss T false p (iter_batches T split k)))
          <$> seq 0 (Z.to_nat (eval_iters cfg))).

Definition estimate_loss (p : tensor) : gmap string Qc :=
  foldl (λ out split, <[split := estimate_split p split]> out) ∅ ["train"; "val"].

Definition get_lr (it : Z) : result Qc :=
  if decide (it < warmup_iters cfg) then
    if decide (warmup_iters cfg = 0) then Raise ZeroDivisionError
    else Ok (learning_rate cfg * Qc_of_Z it / Qc_of_Z (warmup_iters cfg))%Qc
  else if decide (it > lr_decay_iters cfg) then Ok (min_lr cfg)
  else
    if decide (lr_decay_iters cfg - warmup_iters cfg = 0)
    then Raise ZeroDivisionError
    else
      let decay_ratio :=
        (Qc_of_Z (it - warmup_iters cfg)
         / Qc_of_Z (lr_decay_iters cfg - warmup_iters cfg))%Qc in
      py_assert (bool_decide (0 ≤ decay_ratio ∧ decay_ratio ≤ 1)%Qc);;
      let coeff := (Q2Qc (1 # 2) * (1 + cos_pi T decay_ratio))%Qc in
      Ok (min_lr cfg + coeff * (learning_rate cfg - min_lr cfg))%Qc.

(** *** The statements of the loop body, in order *)

(** [lr = get_lr(iter_num) if decay_lr else learning_rate] and the
    assignment to every parameter group. *)
Definition assign_lr (s : state) : outcome state :=
  eval_in s (if decay_lr cfg then get_lr (iter_num s) else Ok (learning_rate cfg))
    (λ lr, Continue (set_lr lr s)).

(** The checkpoint dict, [torch.save] and [model_export]. *)
Definition save_checkpoint (s : state) : outcome state :=
  match config_dict s with
  | None => Raised (NameError "config") s
  | Some _ =>
      Continue (emit (EvExport (iter_num s))
                  (emit (EvSave (iter_num s) (best_val_loss s)) s))
  end.

(** [if iter_num % eval_interval == 0 and master_process: ...] *)
Definition eval_block (s : state) : outcome state :=
  eval_in s (py_mod (iter_num s) (eval_interval cfg)) (λ r,
    if bool_decide (r = 0) && master_process (setup cfg) then
      let losses := estimate_loss (params s) in
      eval_in s (py_getitem losses "train") (λ train,
      eval_in s (py_getitem losses "val") (λ val,
        let s := emit (EvEval (iter_num s) train val) s in
        let s := if wandb_log cfg then emit (EvWandb (iter_num s)) s else s in
        if bool_decide (val < best_val_loss s)%Qc || always_save_checkpoint cfg
        then
          let s := set_best_val_loss val s in
          if bool_decide (iter_num s > 0) then save_checkpoint s
          else Continue s
        else Continue s))
    else Continue s).

(** [if iter_num == 0 and eval_only: break] *)
Definition eval_only_check (s : state) : outcome state :=
  if bool_decide (iter_num s = 0) && eval_only cfg then Break s else Continue s.

(** [GradScaler(enabled=(dtype == "float16"))] *)
Definition scaler_enabled : bool := bool_decide (dtype cfg = "float16").

Definition scaler_scale (s : state) (l : scalar) : scalar :=
  if scaler_enabled then scalar_mul l (scale s) else l.

(** One pass through the body of [for micro_step in range(...)]. *)
Definition micro_step_body (s : state) (micro_step : Z) : state :=
  let gas := gradient_accumulation_steps (setup cfg) in
  let s :=
    if ddp (setup cfg)
    then set_sync (bool_decide (micro_step = gas - 1)) s
    else s in
  let s := emit (EvForward (iter_num s) micro_step (batch_index s)) s in
  let loss := last_loss T true (params s) (iter_batches T "train" (batch_index s)) in
  let loss := scalar_div loss (Qc_of_Z gas) in
  let s := set_loss loss s in
  let s := next_batch s in
  let scaled := scaler_scale s loss in
  let sync := ddp (setup cfg) && require_backward_grad_sync s in
  let g := backward scaled (grad s) in
  let g := if sync then all_reduce T <$> g else g in
  emit (EvBackward (iter_num s) micro_step scaled sync) (set_grad g s).

Definition micro_steps (s : state) : state :=
  foldl micro_step_body s (range (gradient_accumulation_steps (setup cfg))).

(** [scaler.unscale_(optimizer)]: the gradients times [1 / scale]. *)
Definition unscale_ (s : state) : state :=
  if scaler_enabled
  then set_grad ((λ g, tensor_mul g (/ scale s)%Qc) <$> grad s) s
  else s.

(** [if grad_clip != 0.0: ...], [scaler.step(optimizer)] (which unscales
    if the clipping did not), [scaler.update()] and
    [optimizer.zero_grad(set_to_none=True)]. *)
Definition optimizer_update (s : state) : state :=
  let s :=
    if bool_decide (grad_clip cfg ≠ 0%Qc)
    then let s := unscale_ s in
         set_grad (clip_grad_norm_ T (grad s) (grad_clip cfg)) s
    else unscale_ s in
  let '(o, p) := adamw_step T (opt_state s) (opt_lr s) (params s) (grad s) in
  let s := emit (EvStep (iter_num s)) (set_optimized o p s) in
  let s := if scaler_enabled then set_scale (scaler_update T (scale s)) s else s in
  set_grad None s.

(** [if iter_num % log_interval == 0 and master_process: ...]; the
    timing and the flops estimate do not influence the loop and are left
    out. *)
Definition log_block (s : state) : outcome state :=
  eval_in s (py_mod (iter_num s) (log_interval cfg)) (λ r,
    if bool_decide (r = 0) && master_process (setup cfg) then
      match loss s with
      | None => Raised (NameError "loss") s
      | Some l =>
          let lossf :=
            (item l * Qc_of_Z (gradient_accumulation_steps (setup cfg)))%Qc in
          Continue (emit (EvLog (iter_num s) lossf) s)
      end
    else Continue s).

(** [iter_num += 1], [local_iter_num += 1] and
    [if iter_num > max_iters: break]. *)
Definition advance (s : state) : outcome state :=
  let s := incr_iter s in
  if bool_decide (iter_num s > max_iters cfg) then Break s else Continue s.

(** The micro-steps, the update and the log line after it. *)
Definition update_and_log (s : state) : outcome state :=
  log_block (optimizer_update (micro_steps s)).

Definition body (s : state) : outcome state :=
  and_then (assign_lr s) (λ s,
  and_then (eval_block s) (λ s,
  and_then (eval_only_check s) (λ s,
  and_then (update_and_log s) advance))).

(** [while True: body]; [None] when the fuel runs out first. *)
Fixpoint while_true (fuel : nat) (s : state) : option (final state) :=
  match fuel with
  | O => None
  | S fuel =>
      match body s with
      | Continue s => while_true fuel s
      | Break s => Some (Exited s)
      | Raised e s => Some (Crashed e s)
      end
  end.

(** *** What the micro-steps of one iteration are expected to produce *)

(** The loss of the micro-batch read by micro-step [k] of the iteration
    that starts in [s], as the model reports it. *)
Definition micro_loss (s : state) (k : nat) : scalar :=
  last_loss T true (params s) (iter_batches T "train" (batch_index s + k)%nat).

(** What micro-step [k] hands to [backward]. *)
Definition micro_scaled (s : state) (k : nat) : scalar :=
  scaler_scale s
    (scalar_div (micro_loss s k) (Qc_of_Z (gradient_accumulation_steps (setup cfg)))).

Definition micro_sync (k : nat) : bool :=
  ddp (setup cfg)
  && bool_decide (Z.of_nat k = gradient_accumulation_steps (setup cfg) - 1).

(** The events of micro-step [k], latest first. *)
Definition micro_events (s : state) (k : nat) : list event :=
  [EvBackward (iter_num s) (Z.of_nat k) (micro_scaled s k) (micro_sync k);
   EvForward (iter_num s) (Z.of_nat k) (batch_index s + k)%nat].

(** The [.grad] buffers after the first [m] micro-steps. *)
Definition micro_grad (s : state) (m : nat) : option tensor :=
  let g := foldl (λ g k, backward (micro_scaled s k) g) (grad s) (seq 0 m) in
  if ddp (setup cfg)
     && bool_decide (Z.of_nat m = gradient_accumulation_steps (setup cfg))
     && bool_decide (m ≠ 0%nat)
  then all_reduce T <$> g
  else g.

(** The variables the micro-steps leave alone. *)
Definition same_frame (s s' : state) : Prop :=
  iter_num s' = iter_num s ∧ local_iter_num s' = local_iter_num s ∧
  best_val_loss s' = best_val_loss s ∧ params s' = params s ∧
  opt_state s' = opt_state s ∧ opt_lr s' = opt_lr s ∧
  scale s' = scale s ∧ config_dict s' = config_dict s.

(** *** When an iteration raises nothing *)

(** The validation loss [estimate_loss] measures in state [s]. *)
Definition measured_val (s : state) : Qc := estimate_split (params s) "val".
Definition measured_train (s : state) : Qc := estimate_split (params s) "train".

(** The guard of the evaluation block. *)
Definition evaluates (it : Z) : bool :=
  bool_decide (it `mod` eval_interval cfg = 0) && master_process (setup cfg).

(** [get_lr(it)] divides by [lr_decay_iters - warmup_iters] when [it] is
    neither below [warmup_iters] nor above [lr_decay_iters]. *)
Definition lr_defined (it : Z) : Prop :=
  decay_lr cfg = false ∨ warmup_iters cfg ≠ lr_decay_iters cfg
  ∨ it ≠ warmup_iters cfg.

(** Iteration [it] cannot raise: the intervals are not zero, the
    learning rate is defined, and either [config] is bound or the
    iteration cannot reach the checkpoint dict. *)
Definition safe_iteration (config : option (list string)) (it : Z) : Prop :=
  eval_interval cfg ≠ 0 ∧ log_interval cfg ≠ 0 ∧ lr_defined it ∧
  (is_Some config ∨ evaluates it = false ∨ it ≤ 0).

(** One more iteration was run without leaving the loop. *)
Definition iteration (s s' : state) : Prop := body s = Continue s'.

(** Relations between an earlier and a later state of the loop. *)
Definition best_not_above (s s' : state) : Prop :=
  (best_val_loss s' ≤ best_val_loss s)%Qc.

Definition iter_not_below (s s' : state) : Prop := iter_num s ≤ iter_num s'.

(** [config] is as it was and, if it is unbound, nothing was saved or
    exported in between. *)
Definition nothing_written (s s' : state) : Prop :=
  config_dict s' = config_dict s ∧
  (config_dict s = None →
   saves_of (trace s') = saves_of (trace s) ∧
   exports_of (trace s') = exports_of (trace s)).

End Loop.

(** [eval_only] set to [b], the rest of the configuration as it is. *)
Definition with_eval_only (b : bool) (cfg : config) : config :=
  {| eval_interval := eval_interval cfg; log_interval := log_interval cfg;
     eval_iters := eval_iters cfg; eval_only := b;
     always_save_checkpoint := always_save_checkpoint cfg;
     wandb_log := wandb_log cfg; learning_rate := learning_rate cfg;
     max_iters := max_iters cfg; grad_clip := grad_clip cfg;
     decay_lr := decay_lr cfg; warmup_iters := warmup_iters cfg;
     lr_decay_iters := lr_decay_iters cfg; min_lr := min_lr cfg;
     dtype := dtype cfg; setup := setup cfg |}.

(** The sum and the mean of a list of gradients; [None] for no gradient. *)
Definition grad_sum (gs : list tensor) : option tensor :=
  foldl accumulate None gs.

Definition grad_mean (gs : list tensor) : option tensor :=
  (λ g, tensor_div g (Qc_of_Z (Z.of_nat (length gs)))) <$> grad_sum gs.

(** ** The notebook's own values *)

(** Cell 3, with the two values the loop's length depends on left open:
    [lr_decay_iters = max_iters] is an assignment of that cell. *)
Definition cell3 (max_iters : Z) (always_save_checkpoint : bool)
    (st : ddp_setup) : config :=
  {| eval_interval := 2000; log_interval := 1; eval_iters := 100;
     eval_only := false; always_save_checkpoint := always_save_checkpoint;
     wandb_log := false;
     learning_rate := Q2Qc (5 # 10000); max_iters := max_iters;
     grad_clip := 1%Qc; decay_lr := true; warmup_iters := 1000;
     lr_decay_iters := max_iters; min_lr := 0%Qc; dtype := "bfloat16";
     setup := st |}.

(** What cell 5 computes when no [RANK] is set. *)
Definition single_process : ddp_setup :=
  {| ddp := false; ddp_world_size := 1; master_process := true;
     seed_offset := 0; gradient_accumulation_steps := 4;
     tokens_per_iter := 120 |}.

Definition notebook_config : config := cell3 100000 false single_process.

(** The variables as cells 7 to 21 leave them when the loop is entered:
    [iter_num = 0], [best_val_loss = 1e9], a freshly built model and
    optimizer, the first batch fetched, and no cell having assigned
    [loss] or [config] (cell 3 builds [config_keys] only). *)
Definition initial_state (T : Torch) (cfg : config)
    (p0 : tensor) (o0 : OptState T) : state T :=
  {| iter_num := 0; local_iter_num := 0;
     best_val_loss := Qc_of_Z 1000000000;
     params := p0; grad := None; require_backward_grad_sync := true;
     opt_state := o0; opt_lr := learning_rate cfg; scale := Qc_of_Z 65536;
     loss := None; config_dict := None; batch_index := 0%nat; trace := [] |}.

(** The same after [init_from = "resume"]: cell 9 takes [iter_num] and
    [best_val_loss] from the checkpoint.  (The learning rate the
    checkpoint holds is not modelled: the loop assigns it before it reads
    it.) *)
Definition resumed_state (T : Torch) (cfg : config) (it : Z) (best : Qc)
    (p0 : tensor) (o0 : OptState T) : state T :=
  {| iter_num := it; local_iter_num := 0; best_val_loss := best;
     params := p0; grad := None; require_backward_grad_sync := true;
     opt_state := o0; opt_lr := learning_rate cfg; scale := Qc_of_Z 65536;
     loss := None; config_dict := None; batch_index := 0%nat; trace := [] |}.

(** *** A small instance of the interface

    It lets the loop run on concrete values: every batch is one target
    number, the loss is the squared distance of the parameters from it,
    and the optimizer is plain gradient descent that counts its steps. *)
Definition least_squares : Torch :=
  {| Batch := Qc;
     OptState := nat;
     last_loss := λ _ p t,
       {| item := foldr Qcplus 0%Qc ((λ x, (x - t) * (x - t))%Qc <$> p);
          d_params := (λ x, (1 + 1) * (x - t))%Qc <$> p |};
     adamw_step := λ o lr p g,
       (S o, match g with
             | Some g => zip_with (λ x d, (x - lr * d)%Qc) p g
             | None => p
             end);
     clip_grad_norm_ := λ g _, g;
     cos_pi := λ x, (1 - (1 + 1) * x)%Qc;
     scaler_update := λ c, c;
     all_reduce := λ g, g;
     iter_batches := λ split k,
       if decide (split = "val") then Qc_of_Z (Z.of_nat k + 1)
       else Qc_of_Z (Z.of_nat k) |}.

(** Two processes, of which this is the second. *)
Definition second_of_two : ddp_setup :=
  {| ddp := true; ddp_world_size := 2; master_process := false;
     seed_offset := 1; gradient_accumulation_steps := 2;
     tokens_per_iter := 120 |}.

(** ** Cells 14 to 18: the targets of multi-token prediction *)

(** [l[lo:hi]]: a negative index counts from the end, and both ends are
    clamped to the list. *)
Definition py_clamp (len i : Z) : Z :=
  if decide (i < 0) then Z.max (i + len) 0 else Z.min i len.

Definition py_slice {A : Type} (l : list A) (lo hi : Z) : list A :=
  let len := Z.of_nat (length l) in
  let lo := py_clamp len lo in
  let hi := py_clamp len hi in
  take (Z.to_nat (hi - lo)) (drop (Z.to_nat lo) l).

(** Cell 16: the three slices [X[:, k : window_size + k]] it prints. *)
Definition cell16 (window_size : Z) (X : list (list Z)) : list (list (list Z)) :=
  (λ k, (λ x, py_slice x k (window_size + k)) <$> X) <$> [1; 2; 3].

(** [torch.stack(cols, dim=-1)] of one-dimensional tensors: entry [t] of
    the result lists entry [t] of every column; the columns must be of one
    length and there must be one at least. *)
Definition stack_last {A : Type} (cols : list (list A)) : result (list (list A)) :=
  match cols with
  | [] => Raise RuntimeError
  | c :: _ =>
      if forallb (λ c', bool_decide (length c' = length c)) cols
      then Ok ((λ t, omap (λ c', c' !! t) cols) <$> seq 0 (length c))
      else Raise RuntimeError
  end.

Fixpoint for_each {A B : Type} (f : A → result B) (l : list A) : result (list B) :=
  match l with
  | [] => Ok []
  | a :: l => b ← f a; bs ← for_each f l; Ok (b :: bs)
  end.

(** Modelled from the spec: the target construction of [Task.iter_batches]
    (tinystories.py is not among the sources).  The spec has the targets
    built from the token stream, offset per head: head [k] is given the
    stream moved forward by [k + 1], over the [len(x) - n] positions that
    have all [n] future tokens, and the heads are stacked on the last
    axis. *)
Definition head_targets (n : Z) (x : list Z) (k : Z) : list Z :=
  py_slice x (k + 1) (k + 1 + (Z.of_nat (length x) - n)).

(** Modelled from the spec: the targets of one row of [Task.iter_batches],
    the [n] heads stacked on the last axis. *)
Definition mtp_targets (n : Z) (x : list Z) : result (list (list Z)) :=
  stack_last (head_targets n x <$> range n).

(** Modelled from the spec: the targets [Y] of [Task.iter_batches] for a
    batch [X], row by row. *)
Definition batch_targets (n : Z) (X : list (list Z)) : result (list (list (list Z))) :=
  for_each (mtp_targets n) X.

(** [t[:, :, k]] of a tensor with three or more axes. *)
Definition select_head {A : Type} (k : nat) (t : list (list (list A))) : list (list A) :=
  (λ row : list (list A), omap (λ heads : list A, heads !! k) row) <$> t.

(** The batch cell 15 displays. *)
Definition X_recorded : list (list Z) :=
  [[322; 274; 566; 29881; 280; 1213; 13; 29924; 290; 322;
    270; 328; 3939; 278; 14064; 322; 298; 688; 3192; 365;
    2354; 322; 5918; 29889; 2688; 20654; 278; 11203; 322; 278]].

Definition Y_recorded : list (list (list Z)) :=
  [[[274; 566; 29881; 280]; [566; 29881; 280; 1213]; [29881; 280; 1213; 13];
    [280; 1213; 13; 29924]; [1213; 13; 29924; 290]; [13; 29924; 290; 322];
    [29924; 290; 322; 270]; [290; 322; 270; 328]; [322; 270; 328; 3939];
    [270; 328; 3939; 278]; [328; 3939; 278; 14064]; [3939; 278; 14064; 322];
    [278; 14064; 322; 298]; [14064; 322; 298; 688]; [322; 298; 688; 3192];
    [298; 688; 3192; 365]; [688; 3192; 365; 2354]; [3192; 365; 2354; 322];
    [365; 2354; 322; 5918]; [2354; 322; 5918; 29889]; [322; 5918; 29889; 2688];
    [5918; 29889; 2688; 20654]; [29889; 2688; 20654; 278];
    [2688; 20654; 278; 11203]; [20654; 278; 11203; 322];
    [278; 11203; 322; 278]]].

(** A tensor of the given shape, as nested lists. *)
Definition has_shape3 {A : Type} (d0 d1 d2 : nat) (t : list (list (list A))) : Prop :=
  length t = d0 ∧
  Forall (λ row, length row = d1 ∧ Forall (λ w, length w = d2) row) t.

(** ** More of the training loop: what a run leaves behind *)

(** The index in the training stream of the batch of every forward pass. *)
Definition forwards_of : list event → list nat :=
  project (λ e, match e with EvForward _ _ b => Some b | _ => None end).

(** The iterations that printed a log line. *)
Definition logs_of : list event → list Z :=
  project (λ e, match e with EvLog it _ => Some it | _ => None end).

(** The iterations that logged to wandb. *)
Definition wandb_of : list event → list Z :=
  project (λ e, match e with EvWandb it => Some it | _ => None end).

Section Invariants.
Context (T : Torch) (cfg : config).

(** The forward passes between [s] and [s'] read the batches from the
    current one of [s] up to the current one of [s'], each once and in
    the order of the stream. *)
Definition batches_in_order (s s' : state T) : Prop :=
  ∃ n : nat,
    batch_index s' = (batch_index s + n)%nat ∧
    forwards_of (trace s') = forwards_of (trace s) ++ seq (batch_index s) n.

(** Between [s] and [s'] there were [gradient_accumulation_steps] batches
    read for every optimizer step. *)
Definition batches_per_step (s s' : state T) : Prop :=
  ∃ n : nat,
    length (steps_of (trace s')) = (length (steps_of (trace s)) + n)%nat ∧
    batch_index s' =
      (batch_index s + n * Z.to_nat (gradient_accumulation_steps (setup cfg)))%nat.

(** Between [s] and [s'] nothing was evaluated, logged, saved or
    exported, and [best_val_loss] was not assigned. *)
Definition silent (s s' : state T) : Prop :=
  best_val_loss s' = best_val_loss s ∧
  evals_of (trace s') = evals_of (trace s) ∧
  wandb_of (trace s') = wandb_of (trace s) ∧
  saves_of (trace s') = saves_of (trace s) ∧
  exports_of (trace s') = exports_of (trace s) ∧
  logs_of (trace s') = logs_of (trace s).

(** The guard of the log line. *)
Definition logs (it : Z) : bool :=
  bool_decide (it `mod` log_interval cfg = 0) && master_process (setup cfg).
End Invariants.

(** An int that Python converts to a [float] without [OverflowError]:
    every int below [2 ** 1023] in absolute value is one.  In [get_lr]
    the ints [it] and [warmup_iters] are converted, by
    [learning_rate * it / warmup_iters]. *)
Definition fits_float (z : Z) : Prop := Z.abs z < 2 ^ 1023.

(** A short run for the examples: evaluation every second iteration over
    two batches, four iterations, the rest as in cell 3. *)
Definition short_run (st : ddp_setup) : config :=
  {| eval_interval := 2; log_interval := 1; eval_iters := 2;
     eval_only := false; always_save_checkpoint := false; wandb_log := false;
     learning_rate := Q2Qc (5 # 10000); max_iters := 3;
     grad_clip := 1%Qc; decay_lr := true; warmup_iters := 1000;
     lr_decay_iters := 3; min_lr := 0%Qc; dtype := "bfloat16";
     setup := st |}.

(** ** Cell 9: resuming from a checkpoint *)

(** A loop whose body may raise. *)
Fixpoint for_loop {S A : Type} (body : S → A → result S) (s : S) (l : list A) : result S :=
  match l with
  | [] => Ok s
  | a :: l => s ← body s a; for_loop body s l
  end.

(** The keys cell 9 takes from the checkpoint. *)
Definition forced_keys : list string :=
  ["dim"; "n_layers"; "n_heads"; "n_kv_heads"; "vocab_size"; "multiple_of";
   "max_seq_len"].

(** [for k in [...]: model_args[k] = checkpoint_model_args[k]] *)
Definition force_model_args {V : Type}
    (model_args checkpoint_model_args : gmap string V) : result (gmap string V) :=
  for_loop (λ model_args k,
              v ← py_getitem checkpoint_model_args k; Ok (<[k := v]> model_args))
    model_args forced_keys.

(** [s.startswith(p)] and [s[n:]] on strings. *)
Definition startswith (s p : string) : bool := String.prefix p s.

Fixpoint str_from (n : nat) (s : string) : string :=
  match n, s with
  | S n, String _ s => str_from n s
  | _, _ => s
  end.

(** A dict whose order matters, as the items in the order of insertion;
    no key occurs twice. *)
Abbreviation pydict V := (list (string * V)).

(** [d.pop(k)]: the value and the dict without the key. *)
Fixpoint dict_pop {V : Type} (k : string) (d : pydict V) : result (V * pydict V) :=
  match d with
  | [] => Raise (KeyError k)
  | (k', v) :: d =>
      if decide (k' = k) then Ok (v, d)
      else '(v', d') ← dict_pop k d; Ok (v', (k', v) :: d')
  end.

(** [d[k] = v]: a key that is there keeps its place, a new one goes to
    the end. *)
Fixpoint dict_setitem {V : Type} (k : string) (v : V) (d : pydict V) : pydict V :=
  match d with
  | [] => [(k, v)]
  | (k', v') :: d =>
      if decide (k' = k) then (k, v) :: d else (k', v') :: dict_setitem k v d
  end.

Definition unwanted_prefix : string := "_orig_mod.".

(** [k[len(unwanted_prefix):]] *)
Definition new_key (k : string) : string :=
  str_from (String.length unwanted_prefix) k.
Arguments new_key : simpl never.

(** The body of the loop over [list(state_dict.items())]. *)
Definition strip_prefix {V : Type} (state_dict : pydict V) (kv : string * V) :
    result (pydict V) :=
  let k := kv.1 in
  if startswith k unwanted_prefix then
    '(v, state_dict) ← dict_pop k state_dict;
    Ok (dict_setitem (new_key k) v state_dict)
  else Ok state_dict.

(** Cell 9: the repair of the keys of [checkpoint["model"]]. *)
Definition fix_state_dict {V : Type} (state_dict : pydict V) : result (pydict V) :=
  for_loop strip_prefix state_dict state_dict.

(** The items of the dict while the loop runs, [d1] visited and [d2] to
    come: an item of [d2] whose key has the prefix, an item of [d1] that
    had it, under its new name, and an item without the prefix whose key
    is not such a new name. *)
Definition entries {V : Type} (d1 d2 : pydict V) (k : string) (v : V) : Prop :=
  (startswith k unwanted_prefix = true ∧ (k, v) ∈ d2) ∨
  (unwanted_prefix +:+ k, v) ∈ d1 ∨
  (startswith k unwanted_prefix = false ∧ (k, v) ∈ d1 ++ d2 ∧
   unwanted_prefix +:+ k ∉ d1.*1).

(** The state dict of a compiled model: every name carries the prefix
    (cell 12 expects as much of the buffer names of a compiled model). *)
Definition compiled_names {V : Type} (state_dict : pydict V) : pydict V :=
  (λ kv, (unwanted_prefix +:+ kv.1, kv.2)) <$> state_dict.

(** The variables at the loop's entry if a cell had bound [config] to a
    dict with the given keys, as the checkpoint dict expects. *)
Definition configured_state (T : Torch) (cfg : config) (keys : list string)
    (p0 : tensor) (o0 : OptState T) : state T :=
  {| iter_num := 0; local_iter_num := 0;
     best_val_loss := Qc_of_Z 1000000000;
     params := p0; grad := None; require_backward_grad_sync := true;
     opt_state := o0; opt_lr := learning_rate cfg; scale := Qc_of_Z 65536;
     loss := None; config_dict := Some keys; batch_index := 0%nat; trace := [] |}.

(** [eval_interval] and [log_interval] set, the rest of the configuration
    as it is. *)
Definition with_intervals (eval_interval log_interval : Z) (cfg : config) : config :=
  {| eval_interval := eval_interval; log_interval := log_interval;
     eval_iters := eval_iters cfg; eval_only := eval_only cfg;
     always_save_checkpoint := always_save_checkpoint cfg;
     wandb_log := wandb_log cfg; learning_rate := learning_rate cfg;
     max_iters := max_iters cfg; grad_clip := grad_clip cfg;
     decay_lr := decay_lr cfg; warmup_iters := warmup_iters cfg;
     lr_decay_iters := lr_decay_iters cfg; min_lr := min_lr cfg;
     dtype := dtype cfg; setup := setup cfg |}.

(** * Theorems *)

(** The recorded output of cell 5: 4 * 1 * 1 * 30 = 120 tokens. *)
Example cell5_recorded : cell5 ∅ 4 1 30 = Ok single_process.
Proof. reflexivity. Qed.

(** The targets modelled for [iter_batches] are the ones cell 15 shows. *)
Example cell15_recorded : batch_targets 4 X_recorded = Ok Y_recorded.
Proof. vm_compute. reflexivity. Qed.

(** The slices printed by cell 16 are the targets of heads 0, 1 and 2. *)
Example cell16_recorded :
  cell16 26 X_recorded = (λ k, select_head k (Y_recorded)) <$> [0; 1; 2]%nat.
Proof. vm_compute. reflexivity. Qed.

(** ** Cell 5 *)

Section Cell5.
Context (environ : gmap string Z) (gas batch_size max_seq_len : Z).

Lemma cell5_single_process :
  environ !! "RANK" = None →
  cell5 environ gas batch_size max_seq_len
  = Ok {| ddp := false; ddp_world_size := 1; master_process := true;
          seed_offset := 0; gradient_accumulation_steps := gas;
          tokens_per_iter := gas * 1 * batch_size * max_seq_len |}.
Proof. intros Hr. unfold cell5. rewrite Hr. reflexivity. Qed.

(** The assertion of cell 5: a world size that does not divide the
    accumulation steps stops the cell. *)
Lemma cell5_assertion (rank local_rank ws : Z) :
  environ !! "RANK" = Some rank → rank ≠ -1 →
  environ !! "LOCAL_RANK" = Some local_rank →
  environ !! "WORLD_SIZE" = Some ws →
  ws ≠ 0 → gas `mod` ws ≠ 0 →
  cell5 environ gas batch_size max_seq_len = Raise AssertionError.
Proof.
  intros Hr Hne Hl Hw Hz Hm. unfold cell5, py_getitem.
  rewrite Hr, Hl, Hw. simpl.
  case_bool_decide; [|done]. simpl.
  unfold py_mod. rewrite decide_False by done. simpl.
  rewrite (bool_decide_false (gas `mod` ws = 0)) by done. reflexivity.
Qed.

(** C6. Under DDP, when the world size divides the configured number of
    accumulation steps, cell 5 divides that number by the world size, and
    [tokens_per_iter] is what a single process computes from the same
    configuration: accumulation steps * batch size * sequence length. *)
Theorem ddp_tokens_per_iter (rank local_rank ws : Z) :
  environ !! "RANK" = Some rank → rank ≠ -1 →
  environ !! "LOCAL_RANK" = Some local_rank →
  environ !! "WORLD_SIZE" = Some ws →
  py_mod gas ws = Ok 0 →
  ∃ st st1,
    cell5 environ gas batch_size max_seq_len = Ok st ∧
    cell5 ∅ gas batch_size max_seq_len = Ok st1 ∧
    ddp st = true ∧ ddp st1 = false ∧
    ddp_world_size st = ws ∧
    gradient_accumulation_steps st = gas `div` ws ∧
    gradient_accumulation_steps st1 = gas ∧
    tokens_per_iter st = gas * batch_size * max_seq_len ∧
    tokens_per_iter st = tokens_per_iter st1.
Proof.
  intros Hr Hne Hl Hw Hm. unfold py_mod in Hm.
  destruct (decide (ws = 0)) as [|Hz]; [discriminate|].
  injection Hm as Hm.
  assert (Hdiv : gas `div` ws * ws = gas).
  { pose proof (Z.div_mod gas ws Hz). lia. }
  eexists _, _. split.
  { unfold cell5, py_getitem. rewrite Hr, Hl, Hw. simpl.
    case_bool_decide; [|by exfalso]. simpl.
    unfold py_mod, py_floordiv. rewrite !decide_False by done. simpl.
    rewrite (bool_decide_true (gas `mod` ws = 0)) by done. reflexivity. }
  split; [reflexivity|]. simpl.
  repeat split; try reflexivity; rewrite Hdiv; lia.
Qed.
End Cell5.

Lemma ddp_tokens_per_iter_witness :
  ∃ st st1,
    cell5 {[ "RANK" := 1; "LOCAL_RANK" := 1; "WORLD_SIZE" := 2 ]} 4 1 30 = Ok st ∧
    cell5 ∅ 4 1 30 = Ok st1 ∧
    ddp st = true ∧ ddp st1 = false ∧
    ddp_world_size st = 2 ∧
    gradient_accumulation_steps st = 4 `div` 2 ∧
    gradient_accumulation_steps st1 = 4 ∧
    tokens_per_iter st = 4 * 1 * 30 ∧
    tokens_per_iter st = tokens_per_iter st1.
Proof.
  apply (ddp_tokens_per_iter
           {[ "RANK" := 1; "LOCAL_RANK" := 1; "WORLD_SIZE" := 2 ]} 4 1 30 1 1 2);
    [reflexivity | lia | reflexivity | reflexivity | reflexivity].
Defined.

(** ** Traces *)

Lemma project_nil {A : Type} (f : event → option A) : project f [] = [].
Proof. reflexivity. Qed.

Lemma project_cons {A : Type} (f : event → option A) (e : event) (tr : list event) :
  project f (e :: tr) = project f tr ++ option_list (f e).
Proof.
  unfold project. rewrite reverse_cons, omap_app. simpl.
  by destruct (f e).
Qed.

Lemma quiet_ext_steps (tr tr' : list event) :
  quiet_ext tr tr' → steps_of tr' = steps_of tr.
Proof.
  induction 1 as [|e tr' He _ IH]; [done|].
  unfold steps_of in *. rewrite project_cons, IH.
  destruct e; try discriminate; simpl; by rewrite app_nil_r.
Qed.

Lemma quiet_ext_compute (tr tr' : list event) :
  quiet_ext tr tr' → List.filter is_compute tr' = List.filter is_compute tr.
Proof. induction 1 as [|e tr' He _ IH]; [done|]. simpl. by rewrite He. Qed.

(** ** Tensors *)

Lemma tensor_add_fmap (f : Qc → Qc) (a b : tensor) :
  (∀ x y, f (x + y)%Qc = (f x + f y)%Qc) →
  f <$> tensor_add a b = tensor_add (f <$> a) (f <$> b).
Proof.
  intros Hf. unfold tensor_add. revert b.
  induction a as [|x a IH]; intros [|y b]; simpl; try done.
  by rewrite Hf, IH.
Qed.

Lemma accumulate_fmap (f : Qc → Qc) (acc : option tensor) (g : tensor) :
  (∀ x y, f (x + y)%Qc = (f x + f y)%Qc) →
  accumulate (fmap (M:=list) f <$> acc) (f <$> g)
  = fmap (M:=list) f <$> accumulate acc g.
Proof.
  intros Hf. destruct acc as [a|]; simpl; [|done].
  by rewrite tensor_add_fmap.
Qed.

(** Accumulating gradients that were all passed through one additive map
    is accumulating them and passing the sum through that map. *)
Lemma foldl_accumulate_fmap {A : Type} (f : Qc → Qc) (g h : A → tensor) (l : list A) :
  (∀ x y, f (x + y)%Qc = (f x + f y)%Qc) →
  (∀ k, h k = f <$> g k) →
  foldl (λ acc k, accumulate acc (h k)) None l
  = fmap (M:=list) f <$> grad_sum (g <$> l).
Proof.
  intros Hf Hh. unfold grad_sum.
  change (@None tensor) with (fmap (M:=list) f <$> @None tensor) at 1.
  generalize (@None tensor).
  induction l as [|k l IH]; intros acc; simpl; [done|].
  by rewrite Hh, accumulate_fmap, IH.
Qed.

Lemma Qcdiv_plus_distr (c x y : Qc) : ((x + y) / c = x / c + y / c)%Qc.
Proof. unfold Qcdiv. apply Qcmult_plus_distr_l. Qed.

Lemma Qc_of_Z_pos_ne_0 (z : Z) : 1 ≤ z → Qc_of_Z z ≠ 0%Qc.
Proof. intros Hz Heq. rewrite <- Z2Qc_inj_0 in Heq. apply Z2Qc_inj in Heq. lia. Qed.

(** ** The micro-steps of one iteration *)

Section MicroSteps.
Context (T : Torch) (cfg : config).

Local Abbreviation gas := (gradient_accumulation_steps (setup cfg)).

Lemma same_frame_refl (s : state T) : same_frame T s s.
Proof. repeat split. Qed.

Lemma scaler_scale_frame (s s' : state T) (l : scalar) :
  scale s' = scale s → scaler_scale T cfg s' l = scaler_scale T cfg s l.
Proof. intros H. unfold scaler_scale. by rewrite H. Qed.

(** One micro-step, variable by variable. *)
Lemma micro_step_body_spec (s : state T) (k : Z) :
  let s' := micro_step_body T cfg s k in
  let sync := ddp (setup cfg) && bool_decide (k = gas - 1) in
  let scaled :=
    scaler_scale T cfg s
      (scalar_div
         (last_loss T true (params s) (iter_batches T "train" (batch_index s)))
         (Qc_of_Z gas)) in
  same_frame T s s' ∧
  batch_index s' = S (batch_index s) ∧
  trace s' = EvBackward (iter_num s) k scaled sync
             :: EvForward (iter_num s) k (batch_index s) :: trace s ∧
  loss s' = Some (scalar_div
                    (last_loss T true (params s)
                       (iter_batches T "train" (batch_index s)))
                    (Qc_of_Z gas)) ∧
  grad s' = (if sync then fmap (all_reduce T) else id) (backward scaled (grad s)) ∧
  (ddp (setup cfg) = true →
   require_backward_grad_sync s' = bool_decide (k = gas - 1)).
Proof.
  unfold micro_step_body, same_frame.
  destruct (ddp (setup cfg)); simpl;
    repeat split; try done; by destruct (bool_decide (k = gas - 1)).
Qed.

(** The state after the first [m] micro-steps of an iteration. *)
Lemma micro_steps_prefix (s : state T) (m : nat) :
  (m ≤ Z.to_nat gas)%nat →
  let s' := foldl (micro_step_body T cfg) s (Z.of_nat <$> seq 0 m) in
  same_frame T s s' ∧
  batch_index s' = (batch_index s + m)%nat ∧
  trace s' = (reverse (seq 0 m) ≫= micro_events T cfg s) ++ trace s ∧
  loss s' = match m with
            | O => loss s
            | S k => Some (scalar_div (micro_loss T s k) (Qc_of_Z gas))
            end ∧
  grad s' = micro_grad T cfg s m.
Proof.
  induction m as [|m IH]; intros Hm s'.
  { subst s'. simpl. split; [apply same_frame_refl|].
    repeat split; try done.
    unfold micro_grad. simpl. rewrite andb_false_r. done. }
  destruct IH as (Hf & Hb & Ht & Hl & Hg); [lia|].
  subst s'. rewrite seq_S, fmap_app, foldl_app.
  cbn [foldl fmap list_fmap Nat.add].
  set (sm := foldl (micro_step_body T cfg) s (Z.of_nat <$> seq 0 m)) in *.
  destruct Hf as (H1 & H2 & H3 & H4 & H5 & H6 & H7 & H8).
  destruct (micro_step_body_spec sm (Z.of_nat m))
    as ((G1 & G2 & G3 & G4 & G5 & G6 & G7 & G8) & Gb & Gt & Gl & Gg & _).
  split.
  { unfold same_frame. rewrite G1, G2, G3, G4, G5, G6, G7, G8. done. }
  split; [rewrite Gb, Hb; lia|].
  split.
  { rewrite Gt, Ht, reverse_snoc. simpl. unfold micro_events at 2.
    unfold micro_scaled, micro_sync, micro_loss.
    rewrite H1, H4, Hb, (scaler_scale_frame s sm) by done. done. }
  split.
  { rewrite Gl, H4, Hb. done. }
  rewrite Gg, Hg. unfold micro_grad.
  rewrite seq_S, foldl_app. simpl.
  unfold micro_scaled at 3, micro_loss.
  rewrite H4, Hb, (scaler_scale_frame s sm) by done.
  rewrite (bool_decide_false (Z.of_nat m = gas)) by lia.
  rewrite andb_false_r. simpl.
  rewrite andb_true_r. unfold micro_scaled, micro_loss.
  destruct (ddp (setup cfg)); [|done]. simpl.
  destruct (decide (Z.of_nat m = gas - 1)).
  - rewrite !bool_decide_true by lia. done.
  - rewrite !bool_decide_false by lia. done.
Qed.

Lemma micro_steps_spec (s : state T) :
  let s' := micro_steps T cfg s in
  let n := Z.to_nat gas in
  same_frame T s s' ∧
  batch_index s' = (batch_index s + n)%nat ∧
  trace s' = (reverse (seq 0 n) ≫= micro_events T cfg s) ++ trace s ∧
  loss s' = match n with
            | O => loss s
            | S k => Some (scalar_div (micro_loss T s k) (Qc_of_Z gas))
            end ∧
  grad s' = micro_grad T cfg s n.
Proof. apply (micro_steps_prefix s (Z.to_nat gas)). lia. Qed.

Lemma syncs_of_micro_events (s : state T) (m : nat) (tr : list event) :
  syncs_of ((reverse (seq 0 m) ≫= micro_events T cfg s) ++ tr)
  = syncs_of tr ++ ((λ k, (Z.of_nat k, micro_sync cfg k)) <$> seq 0 m).
Proof.
  induction m as [|m IH].
  { simpl. by rewrite app_nil_r. }
  rewrite seq_S, reverse_snoc, fmap_app.
  cbn [mbind list_bind app micro_events fmap list_fmap Nat.add].
  unfold syncs_of in *. rewrite !project_cons, IH. simpl.
  by rewrite app_nil_r, <- app_assoc.
Qed.

(** What the update after the micro-steps changes: the parameters, the
    optimizer state, the scale and the gradients, which it clears; it
    adds the one event of the optimizer step. *)
Lemma optimizer_update_spec (s : state T) :
  let s' := optimizer_update T cfg s in
  iter_num s' = iter_num s ∧ local_iter_num s' = local_iter_num s ∧
  best_val_loss s' = best_val_loss s ∧ loss s' = loss s ∧
  config_dict s' = config_dict s ∧ batch_index s' = batch_index s ∧
  opt_lr s' = opt_lr s ∧
  require_backward_grad_sync s' = require_backward_grad_sync s ∧
  grad s' = None ∧
  trace s' = EvStep (iter_num s) :: trace s.
Proof.
  unfold optimizer_update, unscale_.
  destruct (bool_decide (grad_clip cfg ≠ 0%Qc)), (scaler_enabled cfg); simpl;
    match goal with
    | |- context [adamw_step T ?a ?b ?c ?d] => destruct (adamw_step T a b c d)
    end; simpl; repeat split.
Qed.

(** C4. With at least one accumulation step and the gradient buffers
    cleared, as every iteration finds them, the micro-step loop of an
    iteration runs one forward and one backward pass for each of the
    [gradient_accumulation_steps] micro-steps and no other; the scalar
    handed to [scaler.scale(...).backward()] in micro-step [k] is the
    model loss of that micro-batch divided by
    [gradient_accumulation_steps]; the gradient this accumulates is the
    mean of the micro-batch gradients (times the scale of the
    [GradScaler] when float16 enables it, which [unscale_] takes out
    again, and averaged across processes by the last backward pass under
    DDP); and the value the log line prints,
    [loss.item() * gradient_accumulation_steps], is the undivided loss of
    the last micro-batch. *)
Theorem gradient_accumulation (s : state T) :
  1 ≤ gas →
  grad s = None →
  let n := Z.to_nat gas in
  let s' := micro_steps T cfg s in
  let s'' := optimizer_update T cfg s' in
  trace s' =
    (reverse (seq 0 n) ≫= λ k,
       [EvBackward (iter_num s) (Z.of_nat k)
          (scaler_scale T cfg s (scalar_div (micro_loss T s k) (Qc_of_Z gas)))
          (micro_sync cfg k);
        EvForward (iter_num s) (Z.of_nat k) (batch_index s + k)%nat])
    ++ trace s ∧
  grad s' =
    (if ddp (setup cfg) then fmap (all_reduce T) else id)
      ((if scaler_enabled cfg then fmap (λ g, tensor_mul g (scale s)) else id)
         (grad_mean (d_params <$> (micro_loss T s <$> seq 0 n)))) ∧
  (ddp (setup cfg) = false → scale s ≠ 0%Qc →
   grad (unscale_ T cfg s')
   = grad_mean (d_params <$> (micro_loss T s <$> seq 0 n))) ∧
  log_block T cfg s'' =
    match py_mod (iter_num s) (log_interval cfg) with
    | Raise e => Raised e s''
    | Ok r =>
        if bool_decide (r = 0) && master_process (setup cfg)
        then Continue (emit T (EvLog (iter_num s) (item (micro_loss T s (n - 1)))) s'')
        else Continue s''
    end.
Proof.
  intros Hgas Hgrad n s' s''.
  destruct (micro_steps_spec s)
    as ((Hit & _ & _ & _ & _ & _ & Hsc & _) & _ & Ht & Hl & Hg).
  fold n s' in Hit, Hsc, Ht, Hl, Hg.
  assert (HG : Qc_of_Z gas ≠ 0%Qc) by by apply Qc_of_Z_pos_ne_0.
  assert (Hgrad' : grad s' =
    (if ddp (setup cfg) then fmap (all_reduce T) else id)
      ((if scaler_enabled cfg then fmap (λ g, tensor_mul g (scale s)) else id)
         (grad_mean (d_params <$> (micro_loss T s <$> seq 0 n))))).
  2:{ split; [exact Ht|]. split; [exact Hgrad'|]. split.
      { intros Hddp Hscale. unfold unscale_. rewrite Hddp in Hgrad'.
        destruct (scaler_enabled cfg); [|by rewrite Hgrad'].
        cbn [grad set_grad]. rewrite Hgrad'. cbn [id].
        rewrite Hsc. destruct (grad_mean _) as [g|]; [|done]. cbn. f_equal.
        unfold tensor_mul. rewrite <- list_fmap_compose.
        rewrite <- (list_fmap_id g) at 2. apply list_fmap_ext.
        intros _ x _. cbn. rewrite <- Qcmult_assoc, Qcmult_inv_r by done.
        apply Qcmult_1_r. }
      destruct (optimizer_update_spec s') as (Ui & _ & _ & Ul & _).
      fold s'' in Ui, Ul. unfold log_block. rewrite Ui, Ul, Hit, Hl.
      destruct (py_mod (iter_num s) (log_interval cfg)) as [r|e]; simpl; [|done].
      destruct (bool_decide (r = 0) && master_process (setup cfg)); [|done].
      replace n with (S (n - 1)) at 1 by lia. simpl.
      by rewrite Qcmult_comm, Qcmult_div_r. }
  - rewrite Hg. unfold micro_grad.
    rewrite (bool_decide_true (Z.of_nat n = gas)) by lia.
    rewrite (bool_decide_true (n ≠ 0%nat)) by lia.
    rewrite !andb_true_r, Hgrad.
    assert (Hlen : Qc_of_Z (Z.of_nat (length (d_params <$> (micro_loss T s <$> seq 0 n))))
                   = Qc_of_Z gas).
    { rewrite !length_fmap, length_seq. f_equal. lia. }
    assert (Hfold :
      foldl (λ g k, backward (micro_scaled T cfg s k) g) None (seq 0 n)
      = (if scaler_enabled cfg then fmap (λ g, tensor_mul g (scale s)) else id)
          (grad_mean (d_params <$> (micro_loss T s <$> seq 0 n)))).
    { unfold grad_mean. rewrite Hlen, <- list_fmap_compose.
      unfold backward, micro_scaled, scaler_scale.
      destruct (scaler_enabled cfg); simpl.
      - rewrite (foldl_accumulate_fmap
                   (λ x, (x / Qc_of_Z gas * scale s)%Qc)
                   (d_params ∘ micro_loss T s)).
        + destruct (grad_sum _); simpl; [|done].
          unfold tensor_mul, tensor_div. by rewrite <- list_fmap_compose.
        + intros x y. by rewrite Qcdiv_plus_distr, Qcmult_plus_distr_l.
        + intros k. unfold tensor_mul, tensor_div. simpl.
          by rewrite <- list_fmap_compose.
      - by rewrite (foldl_accumulate_fmap
                      (λ x, (x / Qc_of_Z gas)%Qc) (d_params ∘ micro_loss T s))
          by (intros; first [apply Qcdiv_plus_distr | done]). }
    rewrite Hfold. by destruct (ddp (setup cfg)).
Qed.

(** Every pass through the body that does not leave the loop hands the
    next one cleared gradient buffers. *)
Lemma body_clears_grad (s s' : state T) :
  body T cfg s = Continue s' → grad s' = None.
Proof.
  unfold body, update_and_log, and_then. intros Hb.
  repeat case_match; try discriminate. subst.
  unfold advance in Hb. case_match; [discriminate|]. injection Hb as <-.
  cbn [grad incr_iter].
  match goal with
  | H : log_block T cfg (optimizer_update T cfg ?s3) = Continue ?s5 |- _ =>
      destruct (optimizer_update_spec s3) as (_ & _ & _ & _ & _ & _ & _ & _ & Ug & _);
      revert H; unfold log_block, eval_in; intros H;
      repeat case_match; try discriminate; injection H as <-; exact Ug
  end.
Qed.

(** C7. Under DDP the backward passes of one iteration are those of
    micro-steps 0 to [gradient_accumulation_steps - 1], in that order, and
    the one of micro-step [k] runs with [require_backward_grad_sync] set
    to [k == gradient_accumulation_steps - 1]: true on the last micro-step
    and on no other, so that no backward pass before the last one
    synchronises gradients. *)
Theorem grad_sync_on_last_micro_step (s : state T) :
  ddp (setup cfg) = true →
  let new := (λ k, (k, bool_decide (k = gas - 1))) <$> range gas in
  syncs_of (trace (micro_steps T cfg s)) = syncs_of (trace s) ++ new ∧
  Forall (λ kb, kb.2 = true ↔ kb.1 = gas - 1) new ∧
  (1 ≤ gas → require_backward_grad_sync (micro_steps T cfg s) = true).
Proof.
  intros Hddp new.
  destruct (micro_steps_spec s) as (_ & _ & Ht & _ & _).
  split; [|split].
  - rewrite Ht, syncs_of_micro_events. f_equal.
    subst new. unfold range. rewrite <- list_fmap_compose.
    apply list_fmap_ext. intros _ k _. simpl.
    unfold micro_sync. by rewrite Hddp.
  - subst new. apply Forall_fmap, Forall_forall. intros k _. simpl.
    by rewrite bool_decide_eq_true.
  - intros Hgas. unfold micro_steps, range.
    replace (Z.to_nat gas) with (S (Z.to_nat (gas - 1))) by lia.
    rewrite seq_S, fmap_app, foldl_app. cbn [foldl fmap list_fmap Nat.add].
    destruct (micro_step_body_spec
                (foldl (micro_step_body T cfg) s
                   (Z.of_nat <$> seq 0 (Z.to_nat (gas - 1))))
                (Z.of_nat (Z.to_nat (gas - 1)))) as (_ & _ & _ & _ & _ & Hs).
    rewrite Hs by done. apply bool_decide_eq_true. lia.
Qed.
End MicroSteps.

Lemma gradient_accumulation_witness :
  let cfg := notebook_config in
  let s := initial_state least_squares cfg [Qc_of_Z 3] 0%nat in
  1 ≤ gradient_accumulation_steps (setup cfg) ∧ grad s = None ∧
  grad (micro_steps least_squares cfg s)
  = grad_mean (d_params <$> (micro_loss least_squares s <$> seq 0 4)).
Proof.
  intros cfg s.
  split; [vm_compute; discriminate|]. split; [reflexivity|].
  apply (proj1 (proj2 (gradient_accumulation least_squares cfg s
                         ltac:(vm_compute; discriminate) eq_refl))).
Defined.

Lemma grad_sync_on_last_micro_step_witness :
  let cfg := cell3 100000 false second_of_two in
  let s := initial_state least_squares cfg [Qc_of_Z 3] 0%nat in
  ddp (setup cfg) = true ∧
  syncs_of (trace (micro_steps least_squares cfg s)) = [(0, false); (1, true)].
Proof.
  intros cfg s. split; [reflexivity|].
  apply (proj1 (grad_sync_on_last_micro_step least_squares cfg s eq_refl)).
Defined.

(** ** The statements of the loop body *)

Section Body.
Context (T : Torch) (cfg : config).

Local Abbreviation gas := (gradient_accumulation_steps (setup cfg)).

Lemma decay_ratio_bounds (a b : Z) :
  0 ≤ a ≤ b → 0 < b → (0 ≤ Qc_of_Z a / Qc_of_Z b ∧ Qc_of_Z a / Qc_of_Z b ≤ 1)%Qc.
Proof.
  intros Ha Hb.
  assert (Hb0 : (0 < Qc_of_Z b)%Qc).
  { rewrite <- Z2Qc_inj_0. by apply (proj1 (Z2Qc_inj_lt 0 b)). }
  assert (Hbne : Qc_of_Z b ≠ 0%Qc) by (apply Qc_of_Z_pos_ne_0; lia).
  assert (Hmul : (Qc_of_Z a / Qc_of_Z b * Qc_of_Z b = Qc_of_Z a)%Qc).
  { by rewrite Qcmult_comm, Qcmult_div_r. }
  split.
  - apply (Qcmult_lt_0_le_reg_r _ _ (Qc_of_Z b)); [done|].
    rewrite Hmul, Qcmult_0_l, <- Z2Qc_inj_0. apply (proj1 (Z2Qc_inj_le 0 a)). lia.
  - apply (Qcmult_lt_0_le_reg_r _ _ (Qc_of_Z b)); [done|].
    rewrite Hmul, Qcmult_1_l. apply (proj1 (Z2Qc_inj_le a b)). lia.
Qed.

(** [get_lr] returns on every iteration number but the one that is both
    [warmup_iters] and [lr_decay_iters]. *)
Lemma get_lr_defined (it : Z) :
  0 ≤ it →
  warmup_iters cfg ≠ lr_decay_iters cfg ∨ it ≠ warmup_iters cfg →
  ∃ lr, get_lr T cfg it = Ok lr.
Proof.
  intros Hit Hne. unfold get_lr.
  destruct (decide (it < warmup_iters cfg)).
  { rewrite decide_False by lia. eauto. }
  destruct (decide (it > lr_decay_iters cfg)); [eauto|].
  rewrite decide_False by lia.
  rewrite bool_decide_true; [simpl; eauto|].
  apply decay_ratio_bounds; lia.
Qed.

(** There it divides zero by zero. *)
Lemma get_lr_boundary (it : Z) :
  it = warmup_iters cfg → it = lr_decay_iters cfg →
  get_lr T cfg it = Raise ZeroDivisionError.
Proof.
  intros H1 H2. unfold get_lr.
  rewrite decide_False by lia. rewrite decide_False by lia.
  by rewrite decide_True by lia.
Qed.

Lemma assign_lr_ok (s : state T) :
  0 ≤ iter_num s → lr_defined cfg (iter_num s) →
  ∃ lr, assign_lr T cfg s = Continue (set_lr T lr s).
Proof.
  intros Hit [Hd|Hne]; unfold assign_lr.
  - rewrite Hd. simpl. eauto.
  - destruct (decay_lr cfg); [|simpl; eauto].
    destruct (get_lr_defined (iter_num s) Hit Hne) as [lr ->]. simpl. eauto.
Qed.

Lemma assign_lr_cases (s : state T) :
  (∃ lr, assign_lr T cfg s = Continue (set_lr T lr s))
  ∨ (∃ e, assign_lr T cfg s = Raised e s).
Proof.
  unfold assign_lr, eval_in.
  destruct (if decay_lr cfg then _ else _); eauto.
Qed.

Lemma estimate_loss_val (p : tensor) :
  py_getitem (estimate_loss T cfg p) "val" = Ok (estimate_split T cfg p "val").
Proof. unfold py_getitem, estimate_loss. simpl. by rewrite lookup_insert_eq. Qed.

Lemma estimate_loss_train (p : tensor) :
  py_getitem (estimate_loss T cfg p) "train" = Ok (estimate_split T cfg p "train").
Proof.
  unfold py_getitem, estimate_loss. simpl.
  rewrite lookup_insert_ne by done. by rewrite lookup_insert_eq.
Qed.

(** The evaluation block, with the reads of [losses] resolved. *)
Lemma eval_block_unfold (s : state T) :
  eval_block T cfg s =
    if decide (eval_interval cfg = 0) then Raised ZeroDivisionError s
    else if evaluates cfg (iter_num s) then
      let s1 := emit T (EvEval (iter_num s) (measured_train T cfg s)
                          (measured_val T cfg s)) s in
      let s2 := if wandb_log cfg then emit T (EvWandb (iter_num s)) s1 else s1 in
      if bool_decide (measured_val T cfg s < best_val_loss s)%Qc
         || always_save_checkpoint cfg
      then
        let s3 := set_best_val_loss T (measured_val T cfg s) s2 in
        if bool_decide (iter_num s > 0) then save_checkpoint T s3 else Continue s3
      else Continue s2
    else Continue s.
Proof.
  unfold eval_block, py_mod, evaluates.
  destruct (decide (eval_interval cfg = 0)); [done|]. simpl.
  destruct (bool_decide _ && master_process _); [|done].
  rewrite estimate_loss_train, estimate_loss_val. simpl.
  by destruct (wandb_log cfg).
Qed.

(** What the evaluation block leaves alone, however it ends: all but
    [best_val_loss] and the trace, to which it adds no computation. *)
Lemma eval_block_frame (s : state T) :
  let s' := outcome_state (eval_block T cfg s) in
  iter_num s' = iter_num s ∧ local_iter_num s' = local_iter_num s ∧
  params s' = params s ∧ grad s' = grad s ∧
  require_backward_grad_sync s' = require_backward_grad_sync s ∧
  opt_state s' = opt_state s ∧ opt_lr s' = opt_lr s ∧ scale s' = scale s ∧
  loss s' = loss s ∧ config_dict s' = config_dict s ∧
  batch_index s' = batch_index s ∧
  quiet_ext (trace s) (trace s').
Proof.
  rewrite eval_block_unfold. unfold save_checkpoint.
  repeat case_match; simpl; repeat split;
    repeat first [apply quiet_refl | apply quiet_cons; [reflexivity|]].
Qed.

(** The evaluation block raises nothing when the interval is not zero
    and the checkpoint dict is out of reach or [config] is bound. *)
Lemma eval_block_safe (s : state T) :
  eval_interval cfg ≠ 0 →
  is_Some (config_dict s) ∨ evaluates cfg (iter_num s) = false ∨ iter_num s ≤ 0 →
  ∃ s', eval_block T cfg s = Continue s'.
Proof.
  intros He Hsave. rewrite eval_block_unfold.
  rewrite decide_False by done.
  destruct (evaluates cfg (iter_num s)) eqn:Hev; [|eauto].
  destruct (wandb_log cfg); simpl;
    (destruct (_ || _); [|eauto]);
    (case_bool_decide; [|eauto]);
    (destruct Hsave as [[c Hc]|[Hn|Hle]]; [|done|lia]);
    unfold save_checkpoint; simpl; rewrite Hc; eauto.
Qed.

Lemma eval_block_never_breaks (s s' : state T) : eval_block T cfg s ≠ Break s'.
Proof.
  rewrite eval_block_unfold. unfold save_checkpoint.
  repeat case_match; discriminate.
Qed.

(** The micro-steps add forward and backward passes to the trace and
    nothing else. *)
Lemma project_micro_events {A : Type} (f : event → option A)
    (s : state T) (m : nat) (tr : list event) :
  (∀ it k b, f (EvForward it k b) = None) →
  (∀ it k l b, f (EvBackward it k l b) = None) →
  project f ((reverse (seq 0 m) ≫= micro_events T cfg s) ++ tr) = project f tr.
Proof.
  intros Hf Hb. induction m as [|m IH]; [done|].
  rewrite seq_S, reverse_snoc.
  cbn [mbind list_bind app micro_events fmap list_fmap Nat.add].
  rewrite !project_cons, IH, Hf, Hb. simpl.
  by rewrite !app_nil_r.
Qed.

Lemma steps_of_micro_events (s : state T) (m : nat) (tr : list event) :
  steps_of ((reverse (seq 0 m) ≫= micro_events T cfg s) ++ tr) = steps_of tr.
Proof. by apply project_micro_events. Qed.

(** A safe iteration that [eval_only] does not stop runs the update,
    counts one iteration up and leaves by the [max_iters] test or goes
    round again. *)
Lemma body_safe (s : state T) :
  0 ≤ iter_num s → 1 ≤ gas →
  safe_iteration cfg (config_dict s) (iter_num s) →
  ¬ (iter_num s = 0 ∧ eval_only cfg = true) →
  ∃ s',
    body T cfg s = (if bool_decide (iter_num s + 1 > max_iters cfg)
                    then Break s' else Continue s') ∧
    iter_num s' = iter_num s + 1 ∧
    config_dict s' = config_dict s ∧
    steps_of (trace s') = steps_of (trace s) ++ [iter_num s] ∧
    grad s' = None.
Proof.
  intros Hit Hgas Hsafe Hno. unfold body, update_and_log.
  destruct (assign_lr_ok s Hit) as [lr ->]; [apply Hsafe|].
  cbn [and_then].
  destruct (eval_block_safe (set_lr T lr s)) as [s2 H2];
    [apply Hsafe | apply Hsafe |].
  pose proof (eval_block_frame (set_lr T lr s)) as Hf.
  rewrite H2 in Hf |- *. cbn [and_then outcome_state] in *.
  destruct Hf as (F1 & _ & _ & _ & _ & _ & _ & _ & _ & F10 & _ & Fq).
  cbn in F1, F10, Fq.
  unfold eval_only_check.
  assert (bool_decide (iter_num s2 = 0) && eval_only cfg = false) as ->.
  { rewrite F1. destruct (eval_only cfg), (decide (iter_num s = 0)).
    - exfalso. auto.
    - by rewrite bool_decide_false.
    - apply andb_false_r.
    - apply andb_false_r. }
  cbn [and_then].
  destruct (micro_steps_spec T cfg s2) as ((M1 & _ & _ & _ & _ & _ & _ & M8) & _ & Mt & Ml & _).
  set (s3 := micro_steps T cfg s2) in *.
  destruct (optimizer_update_spec T cfg s3) as (U1 & _ & _ & Ul & Uc & _ & _ & _ & Ug & Ut).
  set (s4 := optimizer_update T cfg s3) in *.
  assert (Hloss : is_Some (loss s4)).
  { rewrite Ul, Ml. destruct (Z.to_nat gas) eqn:E; [lia|eauto]. }
  destruct Hloss as [l Hl].
  destruct Hsafe as (_ & Hlog & _).
  assert (Hlogged : ∃ s5, log_block T cfg s4 = Continue s5 ∧
            iter_num s5 = iter_num s4 ∧ config_dict s5 = config_dict s4 ∧
            grad s5 = grad s4 ∧ steps_of (trace s5) = steps_of (trace s4)).
  { unfold log_block, py_mod. rewrite decide_False by done. cbn [eval_in].
    rewrite Hl. destruct (_ && _); eexists; (split; [reflexivity|]); try done.
    repeat split. cbn [trace emit]. unfold steps_of.
    rewrite project_cons. simpl. apply app_nil_r. }
  destruct Hlogged as (s5 & -> & L1 & Lc & Lg & Lt). cbn [and_then].
  unfold advance. exists (incr_iter T s5).
  assert (Hi : iter_num (incr_iter T s5) = iter_num s + 1).
  { cbn. rewrite L1, U1, M1, F1. done. }
  rewrite Hi. split; [done|]. split; [done|]. split.
  { cbn. rewrite Lc, Uc, M8, F10. done. }
  split.
  { cbn [trace incr_iter]. rewrite Lt, Ut.
    unfold steps_of at 1. rewrite project_cons. fold steps_of. cbn [option_list].
    rewrite Mt, steps_of_micro_events, (quiet_ext_steps _ _ Fq), M1, F1. done. }
  cbn. by rewrite Lg.
Qed.
End Body.

(** ** Relations every statement of the body maintains *)

Lemma and_then_preserves {S : Type} (R : relation S) `{!PreOrder R}
    (f k : S → outcome S) :
  preserves R f → preserves R k → preserves R (λ s, and_then (f s) k).
Proof.
  intros Hf Hk s. specialize (Hf s).
  destruct (f s) as [s1|s1|e s1]; simpl in *; [|done..].
  by trans s1.
Qed.

Section Runs.
Context (T : Torch) (cfg : config).

Local Abbreviation gas := (gradient_accumulation_steps (setup cfg)).

Lemma body_preserves (R : relation (state T)) `{!PreOrder R} :
  preserves R (assign_lr T cfg) → preserves R (eval_block T cfg) →
  preserves R (eval_only_check T cfg) → preserves R (update_and_log T cfg) →
  preserves R (advance T cfg) →
  preserves R (body T cfg).
Proof.
  intros H1 H2 H3 H4 H5. unfold body.
  apply (and_then_preserves R (assign_lr T cfg)); [done|].
  apply (and_then_preserves R (eval_block T cfg)); [done|].
  apply (and_then_preserves R (eval_only_check T cfg)); [done|].
  by apply (and_then_preserves R (update_and_log T cfg)).
Qed.

Lemma while_true_preserves (R : relation (state T)) `{!PreOrder R}
    (fuel : nat) (s : state T) (f : final (state T)) :
  preserves R (body T cfg) →
  while_true T cfg fuel s = Some f → R s (final_state f).
Proof.
  intros Hb. revert s. induction fuel as [|fuel IH]; intros s Hrun; [done|].
  simpl in Hrun. specialize (Hb s).
  destruct (body T cfg s) as [s1|s1|e s1]; simpl in Hb.
  - trans s1; [done|]. by apply IH.
  - by injection Hrun as <-.
  - by injection Hrun as <-.
Qed.

Lemma iterations_preserve (R : relation (state T)) `{!PreOrder R}
    (s s' : state T) :
  preserves R (body T cfg) → rtc (iteration T cfg) s s' → R s s'.
Proof.
  intros Hb. induction 1 as [|s s1 s' Hstep _ IH]; [done|].
  trans s1; [|done]. specialize (Hb s). unfold iteration in Hstep.
  by rewrite Hstep in Hb.
Qed.

(** What the update and the log line leave alone, however they end, and
    that they write no evaluation, checkpoint or export. *)
Lemma update_and_log_frame (s : state T) :
  let s' := outcome_state (update_and_log T cfg s) in
  iter_num s' = iter_num s ∧ best_val_loss s' = best_val_loss s ∧
  config_dict s' = config_dict s ∧
  evals_of (trace s') = evals_of (trace s) ∧
  saves_of (trace s') = saves_of (trace s) ∧
  exports_of (trace s') = exports_of (trace s).
Proof.
  unfold update_and_log.
  destruct (micro_steps_spec T cfg s) as ((M1 & _ & M3 & _ & _ & _ & _ & M8) & _ & Mt & _).
  set (s3 := micro_steps T cfg s) in *.
  destruct (optimizer_update_spec T cfg s3) as (U1 & _ & U3 & _ & Uc & _ & _ & _ & _ & Ut).
  set (s4 := optimizer_update T cfg s3) in *.
  assert (Hev : evals_of (trace s4) = evals_of (trace s)
                ∧ saves_of (trace s4) = saves_of (trace s)
                ∧ exports_of (trace s4) = exports_of (trace s)).
  { rewrite Ut, Mt. unfold evals_of, saves_of, exports_of.
    rewrite !project_cons. simpl. rewrite !app_nil_r.
    by rewrite !project_micro_events. }
  destruct Hev as (E1 & E2 & E3).
  unfold log_block, eval_in.
  destruct (py_mod _ _) as [r|e]; simpl.
  2:{ by rewrite U1, U3, Uc, M1, M3, M8. }
  destruct (_ && _); simpl.
  2:{ by rewrite U1, U3, Uc, M1, M3, M8. }
  destruct (loss s4); simpl.
  2:{ by rewrite U1, U3, Uc, M1, M3, M8. }
  rewrite U1, U3, Uc, M1, M3, M8.
  unfold evals_of, saves_of, exports_of in *.
  rewrite !project_cons. simpl. rewrite !app_nil_r. done.
Qed.

Lemma assign_lr_state (s : state T) :
  outcome_state (assign_lr T cfg s) = s
  ∨ ∃ lr, outcome_state (assign_lr T cfg s) = set_lr T lr s.
Proof.
  destruct (assign_lr_cases T cfg s) as [[lr ->]|[e ->]]; simpl; eauto.
Qed.

Lemma eval_only_check_state (s : state T) :
  outcome_state (eval_only_check T cfg s) = s.
Proof. unfold eval_only_check. by destruct (_ && _). Qed.

Lemma advance_state (s : state T) :
  outcome_state (advance T cfg s) = incr_iter T s.
Proof. unfold advance. by destruct (bool_decide _). Qed.

(** [n] safe iterations in a row, none of which leaves the loop. *)
Lemma while_true_safe_run (n extra : nat) (s : state T) :
  0 ≤ iter_num s → 1 ≤ gas →
  (∀ it, iter_num s ≤ it < iter_num s + Z.of_nat n →
     safe_iteration cfg (config_dict s) it
     ∧ ¬ (it = 0 ∧ eval_only cfg = true) ∧ it + 1 ≤ max_iters cfg) →
  ∃ s',
    while_true T cfg (n + extra) s = while_true T cfg extra s' ∧
    iter_num s' = iter_num s + Z.of_nat n ∧
    config_dict s' = config_dict s ∧
    steps_of (trace s')
    = steps_of (trace s) ++ ((λ k, iter_num s + Z.of_nat k) <$> seq 0 n).
Proof.
  intros Hit Hgas. revert s Hit.
  induction n as [|n IH]; intros s Hit Hall.
  { exists s. simpl. rewrite app_nil_r. repeat split; lia. }
  destruct (Hall (iter_num s)) as (Hsafe & Hno & Hmax); [lia|].
  destruct (body_safe T cfg s Hit Hgas Hsafe Hno) as (s1 & Hb & H1 & Hc & Hs & _).
  rewrite bool_decide_false in Hb by lia.
  destruct (IH s1) as (s' & Hrun & H1' & Hc' & Hs').
  { lia. }
  { intros it Hrange. rewrite Hc. apply Hall. lia. }
  exists s'. split.
  { cbn [Nat.add while_true]. by rewrite Hb. }
  split; [lia|]. split; [congruence|].
  rewrite Hs', Hs, <- app_assoc. f_equal.
  cbn [seq fmap list_fmap app]. rewrite Z.add_0_r. f_equal.
  rewrite <- seq_shift, <- list_fmap_compose.
  apply list_fmap_ext. intros _ k _. simpl. lia.
Qed.

(** The loop ends: from iteration 0, without [eval_only], when no
    iteration up to [max_iters] can raise, the loop leaves by the
    [max_iters] test after iterations [0, ..., max_iters], each with its
    optimizer step. *)
Lemma training_loop_terminates (s : state T) (extra : nat) :
  0 ≤ max_iters cfg → 1 ≤ gas →
  eval_only cfg = false → iter_num s = 0 →
  (∀ it, 0 ≤ it ≤ max_iters cfg → safe_iteration cfg (config_dict s) it) →
  ∃ s',
    while_true T cfg (S (Z.to_nat (max_iters cfg)) + extra) s = Some (Exited s') ∧
    iter_num s' = max_iters cfg + 1 ∧
    steps_of (trace s') = steps_of (trace s) ++ range (max_iters cfg + 1).
Proof.
  intros Hmax Hgas Heo H0 Hsafe.
  destruct (while_true_safe_run (Z.to_nat (max_iters cfg)) (S extra) s)
    as (s1 & Hrun & H1 & Hc & Hs); [lia|done| |].
  { intros it Hrange. split; [apply Hsafe; lia|]. split; [|lia].
    intros [_ He]. congruence. }
  destruct (body_safe T cfg s1) as (s' & Hb & H1' & _ & Hs' & _); [lia|done| | |].
  { rewrite Hc. apply Hsafe. lia. }
  { intros [_ He]. congruence. }
  rewrite bool_decide_true in Hb by lia.
  exists s'. split.
  { replace (S (Z.to_nat (max_iters cfg)) + extra)%nat
      with (Z.to_nat (max_iters cfg) + S extra)%nat by lia.
    rewrite Hrun. cbn [while_true]. by rewrite Hb. }
  split; [lia|].
  rewrite Hs', Hs, <- app_assoc. f_equal. unfold range.
  replace (Z.to_nat (max_iters cfg + 1)) with (S (Z.to_nat (max_iters cfg))) by lia.
  rewrite seq_S, fmap_app. f_equal.
  - apply list_fmap_ext. intros _ k _. lia.
  - simpl. f_equal. lia.
Qed.
End Runs.

(** ** The best validation loss *)

Section BestValLoss.
Context (T : Torch) (cfg : config).

Global Instance best_not_above_preorder : PreOrder (best_not_above T).
Proof.
  split.
  - intros s. apply Qcle_refl.
  - intros s1 s2 s3 H12 H23. unfold best_not_above in *. by trans (best_val_loss s2).
Qed.

(** [best_val_loss] after the evaluation block, however the block ends. *)
Lemma eval_block_best (s : state T) :
  best_val_loss (outcome_state (eval_block T cfg s)) =
    if decide (eval_interval cfg = 0) then best_val_loss s
    else if evaluates cfg (iter_num s)
              && (bool_decide (measured_val T cfg s < best_val_loss s)%Qc
                  || always_save_checkpoint cfg)
    then measured_val T cfg s
    else best_val_loss s.
Proof.
  rewrite eval_block_unfold. unfold save_checkpoint.
  destruct (decide (eval_interval cfg = 0)); [done|].
  destruct (evaluates cfg (iter_num s)); [|done]. cbn [andb].
  destruct (_ || _); [|by destruct (wandb_log cfg)].
  destruct (wandb_log cfg); cbn; repeat case_match; done.
Qed.

Lemma body_best_not_above :
  always_save_checkpoint cfg = false → preserves (best_not_above T) (body T cfg).
Proof.
  intros Halways. apply body_preserves; [apply _|..]; intros s; unfold best_not_above.
  - destruct (assign_lr_state T cfg s) as [->|[lr ->]]; apply Qcle_refl.
  - rewrite eval_block_best, Halways, orb_false_r.
    repeat case_match; try apply Qcle_refl.
    apply Qclt_le_weak. destruct (evaluates _ _); [|done].
    by apply (bool_decide_eq_true_1 (measured_val T cfg s < best_val_loss s)%Qc).
  - rewrite eval_only_check_state. apply Qcle_refl.
  - destruct (update_and_log_frame T cfg s) as (_ & -> & _). apply Qcle_refl.
  - rewrite advance_state. apply Qcle_refl.
Qed.
End BestValLoss.

(** C8. [best_val_loss] starts at 1e9.  An evaluation step with
    [always_save_checkpoint = False] leaves in it the minimum of its old
    value and the validation loss just measured: a value that is above
    neither and is one of the two.  Hence it never goes up from one
    iteration of a run to a later one.  With
    [always_save_checkpoint = True] the step stores the measured loss
    whatever the old value, and a resumed run whose measured loss is above
    its best one shows the value going up. *)
Theorem best_val_loss_monotone :
  (∀ T cfg p0 o0,
     best_val_loss (initial_state T cfg p0 o0) = Qc_of_Z 1000000000) ∧
  (∀ T cfg (s : state T),
     eval_interval cfg ≠ 0 → evaluates cfg (iter_num s) = true →
     let s' := outcome_state (eval_block T cfg s) in
     let val := measured_val T cfg s in
     if always_save_checkpoint cfg then best_val_loss s' = val
     else (best_val_loss s' ≤ best_val_loss s)%Qc ∧ (best_val_loss s' ≤ val)%Qc
          ∧ (best_val_loss s' = best_val_loss s ∨ best_val_loss s' = val)) ∧
  (∀ T cfg (s s' : state T),
     always_save_checkpoint cfg = false →
     rtc (iteration T cfg) s s' →
     (best_val_loss s' ≤ best_val_loss s)%Qc
     ∧ (best_val_loss (outcome_state (body T cfg s')) ≤ best_val_loss s)%Qc) ∧
  (∃ T cfg (s : state T),
     always_save_checkpoint cfg = true ∧ eval_interval cfg ≠ 0 ∧
     evaluates cfg (iter_num s) = true ∧
     (best_val_loss s < best_val_loss (outcome_state (eval_block T cfg s)))%Qc).
Proof.
  split; [done|]. split; [|split].
  - intros T cfg s He Hev s' val. subst s'.
    rewrite eval_block_best, decide_False, Hev by done. cbn [andb].
    destruct (always_save_checkpoint cfg).
    { by rewrite orb_true_r. }
    rewrite orb_false_r. fold val. case_bool_decide as Hlt.
    + split; [by apply Qclt_le_weak|]. split; [apply Qcle_refl|by right].
    + split; [apply Qcle_refl|]. split; [by apply Qcnot_lt_le|by left].
  - intros T cfg s s' Halways Hrun.
    pose proof (iterations_preserve T cfg (best_not_above T) s s'
                  (body_best_not_above T cfg Halways) Hrun) as H1.
    split; [exact H1|].
    pose proof (body_best_not_above T cfg Halways s') as H2.
    unfold best_not_above in *. by trans (best_val_loss s').
  - exists least_squares, (cell3 100000 true single_process),
      (resumed_state least_squares (cell3 100000 true single_process)
         2000 0%Qc [Qc_of_Z 3] 0%nat).
    split; [done|]. split; [done|]. split; [done|].
    rewrite eval_block_best. vm_compute. reflexivity.
Qed.

Lemma best_val_loss_monotone_witness :
  let cfg := notebook_config in
  let s := initial_state least_squares cfg [Qc_of_Z 3] 0%nat in
  eval_interval cfg ≠ 0 ∧ evaluates cfg (iter_num s) = true ∧
  (best_val_loss (outcome_state (eval_block least_squares cfg s))
   ≤ best_val_loss s)%Qc.
Proof.
  intros cfg s. split; [discriminate|]. split; [reflexivity|].
  apply (proj1 (proj1 (proj2 best_val_loss_monotone) least_squares cfg s
                  ltac:(discriminate) eq_refl)).
Defined.

(** ** Checkpoints *)

Arguments project : simpl never.

Section Checkpoints.
Context (T : Torch) (cfg : config).

Global Instance nothing_written_preorder : PreOrder (nothing_written T).
Proof.
  split.
  - intros s. by split.
  - intros s1 s2 s3 [C12 W12] [C23 W23]. split; [congruence|].
    intros Hnone. destruct (W12 Hnone) as [A B].
    destruct W23 as [C D]; [congruence|]. split; congruence.
Qed.

Lemma eval_block_nothing_written : preserves (nothing_written T) (eval_block T cfg).
Proof.
  intros s. split.
  { by destruct (eval_block_frame T cfg s) as (_ & _ & _ & _ & _ & _ & _ & _ & _ & -> & _). }
  intros Hnone. rewrite eval_block_unfold. unfold save_checkpoint.
  repeat case_match; cbn in *; try congruence;
    unfold saves_of, exports_of; rewrite ?project_cons; cbn;
    by rewrite ?app_nil_r.
Qed.

Lemma body_nothing_written : preserves (nothing_written T) (body T cfg).
Proof.
  apply body_preserves; [apply _|..]; intros s.
  - by destruct (assign_lr_state T cfg s) as [->|[lr ->]].
  - apply eval_block_nothing_written.
  - by rewrite eval_only_check_state.
  - destruct (update_and_log_frame T cfg s) as (_ & _ & Hc & _ & Hs & He).
    by split.
  - by rewrite advance_state.
Qed.

(** As the cells leave the variables, no run writes a checkpoint or an
    export, whatever the configuration, the data and the length of the
    run. *)
Lemma checkpoint_never_written (p0 : tensor) (o0 : OptState T)
    (fuel : nat) (f : final (state T)) :
  while_true T cfg fuel (initial_state T cfg p0 o0) = Some f →
  saves_of (trace (final_state f)) = [] ∧ exports_of (trace (final_state f)) = [].
Proof.
  intros Hrun.
  destruct (while_true_preserves T cfg (nothing_written T) fuel _ f
              body_nothing_written Hrun) as [_ Hw].
  by apply Hw.
Qed.

(** The policy of the evaluation block when [config] is bound: it
    evaluates when [iter_num % eval_interval == 0] on the master process,
    and then saves and exports when the loss improved or
    [always_save_checkpoint] is set, and [iter_num > 0]. *)
Lemma checkpoint_policy (s : state T) :
  eval_interval cfg ≠ 0 → is_Some (config_dict s) →
  let s' := outcome_state (eval_block T cfg s) in
  let written :=
    evaluates cfg (iter_num s)
    && (bool_decide (measured_val T cfg s < best_val_loss s)%Qc
        || always_save_checkpoint cfg)
    && bool_decide (iter_num s > 0) in
  evals_of (trace s')
  = evals_of (trace s) ++ (if evaluates cfg (iter_num s) then [iter_num s] else []) ∧
  saves_of (trace s') = saves_of (trace s) ++ (if written then [iter_num s] else []) ∧
  exports_of (trace s') = exports_of (trace s) ++ (if written then [iter_num s] else []).
Proof.
  intros He [c Hc]. rewrite eval_block_unfold. unfold save_checkpoint.
  rewrite decide_False by done.
  destruct (evaluates cfg (iter_num s)); cbn [andb].
  2:{ cbn. by rewrite !app_nil_r. }
  destruct (_ || _); cbn [andb].
  2:{ destruct (wandb_log cfg); cbn; unfold evals_of, saves_of, exports_of;
        rewrite ?project_cons; cbn; by rewrite ?app_nil_r. }
  destruct (wandb_log cfg); cbn; rewrite Hc; case_bool_decide; cbn;
    unfold evals_of, saves_of, exports_of;
    rewrite ?project_cons; cbn; by rewrite ?app_nil_r, <- ?app_assoc.
Qed.

(** With [config] unbound, an evaluation that reaches the checkpoint dict
    raises [NameError] after it has assigned [best_val_loss]. *)
Lemma save_attempt_raises (s : state T) :
  eval_interval cfg ≠ 0 → config_dict s = None →
  evaluates cfg (iter_num s) = true →
  bool_decide (measured_val T cfg s < best_val_loss s)%Qc
  || always_save_checkpoint cfg = true →
  0 < iter_num s →
  ∃ s', eval_block T cfg s = Raised (NameError "config") s'
        ∧ best_val_loss s' = measured_val T cfg s
        ∧ evals_of (trace s') = evals_of (trace s) ++ [iter_num s].
Proof.
  intros He Hc Hev Himp Hit. rewrite eval_block_unfold. unfold save_checkpoint.
  rewrite decide_False, Hev, Himp by done. cbn zeta.
  rewrite bool_decide_true by lia.
  destruct (wandb_log cfg); cbn; rewrite Hc; eexists; (split; [reflexivity|]);
    cbn; unfold evals_of; rewrite ?project_cons; cbn; by rewrite ?app_nil_r.
Qed.
End Checkpoints.

(** ** Two runs of the notebook *)

Section NotebookRuns.
Context (T : Torch) (p0 : tensor) (o0 : OptState T).

(** With cell 3 as it is but for [max_iters] and
    [always_save_checkpoint], an iteration below 2000 cannot raise, unless
    [max_iters] is 1000 and the iteration is not below it. *)
Lemma cell3_safe (max_iters : Z) (always : bool) (it : Z) :
  0 ≤ it < 2000 → max_iters ≠ 1000 ∨ it < 1000 →
  safe_iteration (cell3 max_iters always single_process) None it.
Proof.
  intros Hit Hlr. unfold safe_iteration, lr_defined, evaluates. cbn.
  split; [done|]. split; [done|]. split; [lia|].
  right. destruct (decide (it = 0)) as [->|]; [right; lia|left].
  rewrite bool_decide_false; [done|].
  rewrite Z.mod_small by lia. done.
Qed.

(** C5. Cell 3 with [always_save_checkpoint = True]: the run evaluates at
    iteration 2000, where the specification has it write [ckpt.pt] and
    [model.bin], and stops there with [NameError: name 'config' is not
    defined], raised while the checkpoint dict is built; nothing was saved
    or exported. *)
Theorem checkpoint_raises_name_error (extra : nat) :
  let cfg := cell3 100000 true single_process in
  ∃ s',
    while_true T cfg (2001 + extra) (initial_state T cfg p0 o0)
    = Some (Crashed (NameError "config") s') ∧
    iter_num s' = 2000 ∧
    2000 ∈ evals_of (trace s') ∧
    saves_of (trace s') = [] ∧ exports_of (trace s') = [].
Proof.
  intros cfg. set (s0 := initial_state T cfg p0 o0).
  destruct (while_true_safe_run T cfg 2000 (S extra) s0)
    as (s1 & Hrun & H1 & Hc & _); [done|done| |].
  { intros it Hit. cbn in Hit. split; [apply cell3_safe; lia|].
    split; [|cbn; lia]. intros [_ He]. discriminate. }
  cbn in H1, Hc.
  destruct (assign_lr_ok T cfg s1) as [lr Hlr]; [lia| |].
  { right. left. done. }
  destruct (save_attempt_raises T cfg (set_lr T lr s1))
    as (s' & Hev & _ & Hevals); [done|done| | |cbn; lia|].
  { cbn [iter_num set_lr]. by rewrite H1. }
  { apply orb_true_r. }
  assert (Hbody : body T cfg s1 = Raised (NameError "config") s').
  { unfold body. rewrite Hlr. cbn [and_then]. by rewrite Hev. }
  assert (Hrun' : while_true T cfg (2001 + extra) s0
                  = Some (Crashed (NameError "config") s')).
  { replace (2001 + extra)%nat with (2000 + S extra)%nat by lia.
    rewrite Hrun. cbn [while_true]. by rewrite Hbody. }
  exists s'. split; [done|].
  destruct (eval_block_frame T cfg (set_lr T lr s1)) as (Hi & _).
  rewrite Hev in Hi. cbn in Hi.
  split; [lia|]. split.
  { rewrite Hevals. apply elem_of_app. right. cbn. rewrite H1. by left. }
  apply (checkpoint_never_written T cfg p0 o0 _ _ Hrun').
Qed.

(** C9. Cell 3 with [max_iters = 1000], the value of [warmup_iters]:
    iterations 0 to 999 run their optimizer steps, and at the top of
    iteration 1000 [get_lr(1000)] divides zero by zero.  The loop stops
    with [ZeroDivisionError] after 1000 updates, where the specification
    has it leave by the [max_iters] test after 1001. *)
Theorem training_stops_at_warmup_boundary (extra : nat) :
  let cfg := cell3 1000 false single_process in
  ∃ s',
    while_true T cfg (1001 + extra) (initial_state T cfg p0 o0)
    = Some (Crashed ZeroDivisionError s') ∧
    iter_num s' = max_iters cfg ∧
    steps_of (trace s') = range 1000 ∧
    length (steps_of (trace s')) = 1000%nat.
Proof.
  intros cfg. set (s0 := initial_state T cfg p0 o0).
  destruct (while_true_safe_run T cfg 1000 (S extra) s0)
    as (s1 & Hrun & H1 & _ & Hs); [done|done| |].
  { intros it Hit. cbn in Hit. split; [apply cell3_safe; lia|].
    split; [|cbn; lia]. intros [_ He]. discriminate. }
  cbn in H1.
  assert (Hbody : body T cfg s1 = Raised ZeroDivisionError s1).
  { unfold body, assign_lr. cbn [decay_lr cfg cell3].
    rewrite get_lr_boundary by (rewrite H1; done). done. }
  exists s1. split.
  { replace (1001 + extra)%nat with (1000 + S extra)%nat by lia.
    rewrite Hrun. cbn [while_true]. by rewrite Hbody. }
  split; [done|].
  assert (Hsteps : steps_of (trace s1) = range 1000).
  { rewrite Hs. cbn [trace s0 initial_state]. unfold steps_of at 1.
    rewrite project_nil. cbn [app]. unfold range.
    apply list_fmap_ext. intros _ k _. subst s0. cbn. lia. }
  split; [done|]. rewrite Hsteps. unfold range.
  by rewrite length_fmap, length_seq.
Qed.

(** The same cell with any [max_iters] from 0 to 1999 other than 1000:
    the loop leaves by the [max_iters] test after [max_iters + 1]
    updates. *)
Lemma short_run_terminates (m : Z) (extra : nat) :
  0 ≤ m < 2000 → m ≠ 1000 →
  let cfg := cell3 m false single_process in
  ∃ s',
    while_true T cfg (S (Z.to_nat m) + extra) (initial_state T cfg p0 o0)
    = Some (Exited s') ∧
    iter_num s' = m + 1 ∧
    steps_of (trace s') = range (m + 1).
Proof.
  intros Hm Hne cfg.
  destruct (training_loop_terminates T cfg (initial_state T cfg p0 o0) extra)
    as (s' & Hrun & Hi & Hs); [cbn; lia|done|done|done| |].
  { intros it Hit. cbn in Hit. apply cell3_safe; lia. }
  exists s'. split; [done|]. split; [done|].
  rewrite Hs. done.
Qed.
End NotebookRuns.

(** The loop run on the least-squares instance.  With [max_iters = 2]:
    three updates, one evaluation, twelve batches read. *)
Example run_to_max_iters :
  match while_true least_squares (cell3 2 false single_process) 5
          (initial_state least_squares (cell3 2 false single_process)
             [Qc_of_Z 3] 0%nat) with
  | Some (Exited s) =>
      Some (iter_num s, steps_of (trace s), evals_of (trace s), batch_index s)
  | _ => None
  end = Some (3, [0; 1; 2], [0], 12%nat).
Proof. vm_compute. reflexivity. Qed.

(** Resumed at iteration 2000 with a best loss of 1, which the measured
    loss does not reach: with [always_save_checkpoint = True] the first
    pass raises, and nothing is saved. *)
Example resumed_run_raises :
  match while_true least_squares (cell3 100000 true single_process) 5
          (resumed_state least_squares (cell3 100000 true single_process)
             2000 1%Qc [Qc_of_Z 3] 0%nat) with
  | Some (Crashed e s) => Some (e, iter_num s, evals_of (trace s), saves_of (trace s))
  | _ => None
  end = Some (NameError "config", 2000, [2000], []).
Proof. vm_compute. reflexivity. Qed.

(** ** [eval_only] *)

Section EvalOnly.
Context (T : Torch) (cfg : config).

Global Instance iter_not_below_preorder : PreOrder (iter_not_below T).
Proof.
  split.
  - intros s. unfold iter_not_below. lia.
  - intros s1 s2 s3. unfold iter_not_below. lia.
Qed.

Lemma body_iter_not_below : preserves (iter_not_below T) (body T cfg).
Proof.
  apply body_preserves; [apply _|..]; intros s; unfold iter_not_below.
  - by destruct (assign_lr_state T cfg s) as [->|[lr ->]].
  - destruct (eval_block_frame T cfg s) as (-> & _). done.
  - by rewrite eval_only_check_state.
  - destruct (update_and_log_frame T cfg s) as (-> & _). done.
  - rewrite advance_state. cbn. lia.
Qed.

(** The evaluations the evaluation block adds to the trace, however it
    ends. *)
Lemma eval_block_evals (s : state T) :
  eval_interval cfg ≠ 0 →
  evals_of (trace (outcome_state (eval_block T cfg s)))
  = evals_of (trace s) ++ (if evaluates cfg (iter_num s) then [iter_num s] else []).
Proof.
  intros He. rewrite eval_block_unfold. unfold save_checkpoint.
  rewrite decide_False by done.
  destruct (evaluates cfg (iter_num s)).
  2:{ cbn. by rewrite app_nil_r. }
  repeat case_match; cbn; unfold evals_of; rewrite ?project_cons; cbn;
    by rewrite ?app_nil_r, <- ?app_assoc.
Qed.

Lemma log_block_never_breaks (s s' : state T) : log_block T cfg s ≠ Break s'.
Proof. unfold log_block, eval_in. repeat case_match; discriminate. Qed.

(** The two ways out of the loop. *)
Lemma body_break_reason (s s' : state T) :
  body T cfg s = Break s' →
  (iter_num s = 0 ∧ eval_only cfg = true) ∨ max_iters cfg < iter_num s'.
Proof.
  unfold body. destruct (assign_lr_cases T cfg s) as [[lr ->]|[e ->]]; [|done].
  cbn [and_then].
  pose proof (eval_block_frame T cfg (set_lr T lr s)) as (Hi & _).
  destruct (eval_block T cfg (set_lr T lr s)) as [s2|s2|e s2] eqn:Hev; [| |done].
  2:{ by destruct (eval_block_never_breaks T cfg _ _ Hev). }
  cbn in Hi. cbn [and_then]. unfold eval_only_check.
  destruct (bool_decide (iter_num s2 = 0) && eval_only cfg) eqn:Hc.
  { intros _. left. apply andb_true_iff in Hc as [Hc ->].
    apply bool_decide_eq_true in Hc. split; [congruence|done]. }
  cbn [and_then]. unfold update_and_log.
  destruct (log_block T cfg _) as [s5|s5|e s5] eqn:Hl; [| |done].
  2:{ by destruct (log_block_never_breaks _ _ Hl). }
  cbn [and_then]. unfold advance.
  destruct (bool_decide (iter_num (incr_iter T s5) > max_iters cfg)) eqn:Hgt;
    [|discriminate].
  apply bool_decide_eq_true in Hgt. intros [= <-]. right. lia.
Qed.

Lemma with_eval_only_id (b : bool) : eval_only cfg = b → with_eval_only b cfg = cfg.
Proof. intros <-. by destruct cfg. Qed.

(** Only the test after the evaluation block reads the flag. *)
Lemma body_with_eval_only (b : bool) (s : state T) :
  body T (with_eval_only b cfg) s =
    and_then (assign_lr T cfg s) (λ s,
    and_then (eval_block T cfg s) (λ s,
    and_then (eval_only_check T (with_eval_only b cfg) s) (λ s,
    and_then (update_and_log T cfg s) (advance T cfg)))).
Proof. reflexivity. Qed.

(** In an iteration other than iteration 0 the flag is not read. *)
Lemma body_eval_only_irrelevant (s : state T) :
  iter_num s ≠ 0 →
  body T (with_eval_only true cfg) s = body T (with_eval_only false cfg) s.
Proof.
  intros Hit. rewrite !body_with_eval_only.
  destruct (assign_lr_cases T cfg s) as [[lr ->]|[e ->]]; [|done].
  cbn [and_then].
  pose proof (eval_block_frame T cfg (set_lr T lr s)) as (H2 & _).
  destruct (eval_block T cfg (set_lr T lr s)) as [s2|s2|e s2]; [|done..].
  cbn in H2. cbn [and_then]. unfold eval_only_check.
  rewrite !bool_decide_false by congruence. done.
Qed.
End EvalOnly.

Section EvalOnlyRuns.
Context (T : Torch) (cfg : config).

Lemma while_true_eval_only_irrelevant (fuel : nat) (s : state T) :
  0 < iter_num s →
  while_true T (with_eval_only true cfg) fuel s
  = while_true T (with_eval_only false cfg) fuel s.
Proof.
  revert s. induction fuel as [|fuel IH]; intros s Hit; [done|].
  cbn [while_true]. rewrite body_eval_only_irrelevant by lia.
  pose proof (body_iter_not_below T (with_eval_only false cfg) s) as Hle.
  destruct (body T (with_eval_only false cfg) s) as [s1|s1|e s1]; [|done..].
  apply IH. unfold iter_not_below in Hle. cbn in Hle. lia.
Qed.

(** A run that starts after iteration 0 leaves the loop by the
    [max_iters] test, if it leaves it. *)
Lemma while_true_exit_reason (fuel : nat) (s s' : state T) :
  0 < iter_num s →
  while_true T cfg fuel s = Some (Exited s') → max_iters cfg < iter_num s'.
Proof.
  revert s. induction fuel as [|fuel IH]; intros s Hit; [done|].
  cbn [while_true].
  pose proof (body_iter_not_below T cfg s) as Hle.
  destruct (body T cfg s) as [s1|s1|e s1] eqn:Hb; [| |done].
  - apply IH. unfold iter_not_below in Hle. cbn in Hle. lia.
  - intros [= <-]. destruct (body_break_reason T cfg s s1 Hb) as [[H0 _]|H]; lia.
Qed.

(** The first pass of a run that [eval_only] stops: the learning rate is
    assigned, the evaluation block runs, and the loop is left. *)
Lemma eval_only_first_pass (s : state T) :
  eval_only cfg = true → iter_num s = 0 →
  eval_interval cfg ≠ 0 → lr_defined cfg 0 →
  ∃ lr s',
    (if decay_lr cfg then get_lr T cfg 0 else Ok (learning_rate cfg)) = Ok lr ∧
    eval_block T cfg (set_lr T lr s) = Continue s' ∧
    body T cfg s = Break s'.
Proof.
  intros Heo H0 He Hlr.
  destruct (assign_lr_ok T cfg s) as [lr Hassign]; [lia|by rewrite H0|].
  destruct (eval_block_safe T cfg (set_lr T lr s)) as [s' Hev]; [done| |].
  { right. right. cbn. lia. }
  exists lr, s'. split; [|split; [done|]].
  - unfold assign_lr, eval_in in Hassign. rewrite H0 in Hassign.
    destruct (if decay_lr cfg then _ else _) as [lr'|e]; [|discriminate].
    injection Hassign as Hs. by rewrite Hs.
  - pose proof (eval_block_frame T cfg (set_lr T lr s)) as (F1 & _).
    rewrite Hev in F1. cbn in F1.
    unfold body. rewrite Hassign. cbn [and_then].
    rewrite Hev. cbn [and_then]. unfold eval_only_check.
    rewrite bool_decide_true by congruence. by rewrite Heo.
Qed.

(** C10. With [eval_only] set, a run that starts at iteration 0 with a
    non-zero [eval_interval] and a learning rate defined at 0 leaves the
    loop in its first pass, right after the evaluation block (which
    evaluates on the master process): no forward pass, backward pass or
    optimizer step was run, and the parameters, [optimizer.state] and the
    gradient buffers are as they were, while the learning rate of the
    parameter groups has been assigned the one of iteration 0.  A run
    that starts at a later iteration does what it does without the flag,
    and if it leaves the loop it is by the [max_iters] test. *)
Theorem eval_only_edge_case (s : state T) (fuel : nat) :
  eval_only cfg = true →
  (iter_num s = 0 → eval_interval cfg ≠ 0 → lr_defined cfg 0 →
   ∃ s',
     while_true T cfg (S fuel) s = Some (Exited s') ∧
     iter_num s' = 0 ∧
     params s' = params s ∧ opt_state s' = opt_state s ∧ grad s' = grad s ∧
     Ok (opt_lr s') = (if decay_lr cfg then get_lr T cfg 0
                       else Ok (learning_rate cfg)) ∧
     List.filter is_compute (trace s') = List.filter is_compute (trace s) ∧
     evals_of (trace s')
     = evals_of (trace s) ++ (if master_process (setup cfg) then [0] else [])) ∧
  (0 < iter_num s →
   while_true T cfg fuel s = while_true T (with_eval_only false cfg) fuel s ∧
   ∀ s', while_true T cfg fuel s = Some (Exited s') → max_iters cfg < iter_num s').
Proof.
  intros Heo. split.
  - intros H0 He Hlr.
    destruct (eval_only_first_pass s Heo H0 He Hlr) as (lr & s' & Hget & Hev & Hb).
    pose proof (eval_block_frame T cfg (set_lr T lr s)) as Hf.
    pose proof (eval_block_evals T cfg (set_lr T lr s) He) as Hevals.
    rewrite Hev in Hf, Hevals. cbn in Hf, Hevals.
    destruct Hf as (F1 & _ & F3 & F4 & _ & F6 & F7 & _ & _ & _ & _ & Fq).
    exists s'. split.
    { cbn [while_true]. by rewrite Hb. }
    split; [congruence|]. split; [exact F3|]. split; [exact F6|].
    split; [exact F4|]. split; [by rewrite F7|].
    split; [by apply quiet_ext_compute|].
    rewrite Hevals, H0. reflexivity.
  - intros Hit. split.
    + rewrite <- (with_eval_only_id cfg true Heo) at 1.
      by apply while_true_eval_only_irrelevant.
    + intros s'. by apply while_true_exit_reason.
Qed.
End EvalOnlyRuns.

(** C10, as it is stated, fails on the notebook's own configuration with
    [eval_only = True]: the loop exits in its first pass, and by then the
    learning rate of the optimizer's parameter groups, 5e-4 when the
    optimizer was built, is [get_lr(0) = 0]. *)
Lemma eval_only_changes_lr :
  let cfg := with_eval_only true notebook_config in
  let s := initial_state least_squares cfg [Qc_of_Z 3] 0%nat in
  eval_only cfg = true ∧ iter_num s = 0 ∧
  ∃ s', while_true least_squares cfg 1 s = Some (Exited s') ∧
        ¬ (params s' = params s ∧ opt_state s' = opt_state s
           ∧ opt_lr s' = opt_lr s).
Proof.
  intros cfg s. split; [reflexivity|]. split; [reflexivity|].
  destruct (eval_only_first_pass least_squares cfg s)
    as (lr & s' & Hget & Hev & Hb);
    [reflexivity | reflexivity | discriminate | right; left; discriminate |].
  pose proof (eval_block_frame least_squares cfg (set_lr least_squares lr s))
    as (_ & _ & _ & _ & _ & _ & F7 & _).
  rewrite Hev in F7. cbn [outcome_state opt_lr set_lr] in F7.
  exists s'. split.
  { cbn [while_true]. by rewrite Hb. }
  intros (_ & _ & Hlr). rewrite F7 in Hlr.
  vm_compute in Hget. injection Hget as <-.
  apply (f_equal this) in Hlr. vm_compute in Hlr. discriminate Hlr.
Qed.

Lemma eval_only_edge_case_witness :
  let cfg := with_eval_only true notebook_config in
  let s0 := initial_state least_squares cfg [Qc_of_Z 3] 0%nat in
  let s5 := resumed_state least_squares cfg 5 1%Qc [Qc_of_Z 3] 0%nat in
  eval_only cfg = true ∧
  (iter_num s0 = 0 ∧ eval_interval cfg ≠ 0 ∧ lr_defined cfg 0 ∧
   ∃ s', while_true least_squares cfg 1 s0 = Some (Exited s')
         ∧ params s' = params s0) ∧
  (0 < iter_num s5 ∧
   while_true least_squares cfg 2 s5
   = while_true least_squares (with_eval_only false cfg) 2 s5).
Proof.
  intros cfg s0 s5. split; [reflexivity|]. split.
  - split; [reflexivity|]. split; [discriminate|].
    split; [right; left; discriminate|].
    destruct (proj1 (eval_only_edge_case least_squares cfg s0 0 eq_refl)
                eq_refl ltac:(discriminate) ltac:(right; left; discriminate))
      as (s' & Hrun & _ & Hp & _).
    exists s'. split; [exact Hrun|exact Hp].
  - split; [reflexivity|].
    apply (proj2 (eval_only_edge_case least_squares cfg s5 2 eq_refl) eq_refl).
Defined.

(** ** The targets *)

Lemma py_slice_in_range {A : Type} (l : list A) (lo hi : nat) :
  (lo ≤ hi ≤ length l)%nat →
  py_slice l (Z.of_nat lo) (Z.of_nat hi) = take (hi - lo) (drop lo l).
Proof.
  intros Hr. unfold py_slice, py_clamp.
  rewrite !decide_False by lia.
  rewrite !Z.min_l by lia. f_equal; [lia|]. f_equal. lia.
Qed.

(** Row [t] of a stack of columns that all reach index [t]. *)
Lemma stacked_row {A : Type} (cols : list (list A)) (t : nat) :
  Forall (λ c, (t < length c)%nat) cols →
  length (omap (λ c, c !! t) cols) = length cols ∧
  ∀ k c, cols !! k = Some c → omap (λ c, c !! t) cols !! k = c !! t.
Proof.
  induction 1 as [|c cols Hc _ [IHl IHk]]; [done|].
  destruct (lookup_lt_is_Some_2 c t Hc) as [a Ha].
  cbn [omap list_omap]. rewrite Ha. cbn. split; [by rewrite IHl|].
  intros [|k] c'; cbn.
  - intros [= <-]. done.
  - apply IHk.
Qed.

Lemma stack_last_spec {A : Type} (cols : list (list A)) (m : nat) :
  cols ≠ [] → Forall (λ c, length c = m) cols →
  ∃ rows,
    stack_last cols = Ok rows ∧ length rows = m ∧
    Forall (λ row, length row = length cols) rows ∧
    ∀ t k c, (t < m)%nat → cols !! k = Some c →
             rows !! t ≫= (.!! k) = c !! t.
Proof.
  intros Hne Hall. destruct cols as [|c0 cols]; [done|]. clear Hne.
  unfold stack_last.
  assert (Hc0 : length c0 = m) by by apply Forall_cons in Hall as [? _].
  rewrite (proj2 (forallb_forall _ _)).
  2:{ intros c Hin. apply bool_decide_eq_true.
      rewrite Forall_forall in Hall. rewrite Hc0. apply Hall.
      by apply list_elem_of_In. }
  eexists. split; [reflexivity|]. rewrite Hc0. split.
  { by rewrite length_fmap, length_seq. }
  split.
  - apply Forall_fmap, Forall_forall. intros t Ht.
    apply elem_of_seq in Ht. cbn.
    apply (stacked_row (c0 :: cols) t).
    eapply Forall_impl; [exact Hall|]. cbn. intros; lia.
  - intros t k c Ht Hk.
    rewrite list_lookup_fmap, lookup_seq_lt by done. cbn.
    apply (stacked_row (c0 :: cols) t); [|done].
    eapply Forall_impl; [exact Hall|]. cbn. intros; lia.
Qed.

Lemma for_each_spec {A B : Type} (f : A → result B) (l : list A) :
  Forall (λ a, ∃ b, f a = Ok b) l →
  ∃ bs, for_each f l = Ok bs ∧ length bs = length l ∧
        ∀ i a, l !! i = Some a → ∃ b, bs !! i = Some b ∧ f a = Ok b.
Proof.
  induction 1 as [|a l [b Hb] _ (bs & Hbs & Hlen & Hlook)].
  { exists []. by repeat split. }
  exists (b :: bs). cbn. rewrite Hb. cbn. rewrite Hbs. cbn.
  split; [done|]. split; [by rewrite Hlen|].
  intros [|i] a'; cbn.
  - intros [= <-]. eauto.
  - apply Hlook.
Qed.

Lemma range_of_nat (n : nat) : range (Z.of_nat n) = Z.of_nat <$> seq 0 n.
Proof. unfold range. by rewrite Nat2Z.id. Qed.

Lemma head_targets_in_range (n L k : nat) (x : list Z) :
  (1 ≤ n < L)%nat → length x = L → (k < n)%nat →
  head_targets (Z.of_nat n) x (Z.of_nat k) = take (L - n) (drop (k + 1) x).
Proof.
  intros Hn Hx Hk. unfold head_targets. rewrite Hx.
  replace (Z.of_nat k + 1) with (Z.of_nat (k + 1)) by lia.
  replace (Z.of_nat (k + 1) + (Z.of_nat L - Z.of_nat n))
    with (Z.of_nat (k + 1 + (L - n))) by lia.
  rewrite py_slice_in_range by lia. f_equal. lia.
Qed.

(** The targets of one row. *)
Lemma mtp_targets_spec (n L : nat) (x : list Z) :
  (1 ≤ n < L)%nat → length x = L →
  ∃ rows,
    mtp_targets (Z.of_nat n) x = Ok rows ∧ length rows = (L - n)%nat ∧
    Forall (λ w, length w = n) rows ∧
    ∀ t k, (t < L - n)%nat → (k < n)%nat →
           rows !! t ≫= (.!! k) = x !! (t + 1 + k)%nat.
Proof.
  intros Hn Hx. unfold mtp_targets. rewrite range_of_nat, <- list_fmap_compose.
  set (cols := (head_targets (Z.of_nat n) x ∘ Z.of_nat) <$> seq 0 n).
  assert (Hcol : ∀ k, (k < n)%nat →
            cols !! k = Some (take (L - n) (drop (k + 1) x))).
  { intros k Hk. subst cols. rewrite list_lookup_fmap, lookup_seq_lt by done.
    cbn. by rewrite (head_targets_in_range n L). }
  assert (Hlen : length cols = n) by (subst cols; by rewrite length_fmap, length_seq).
  destruct (stack_last_spec cols (L - n)) as (rows & Hrows & Hl & Hw & Hlook).
  { intros Hnil. rewrite Hnil in Hlen. cbn in Hlen. lia. }
  { apply Forall_forall. intros c Hc. apply list_elem_of_lookup in Hc as [k Hk].
    assert (k < n)%nat as Hkn by (rewrite <- Hlen; by eapply lookup_lt_Some).
    rewrite Hcol in Hk by done. injection Hk as <-.
    rewrite length_take, length_drop. lia. }
  exists rows. split; [done|]. split; [done|]. split.
  { by rewrite Hlen in Hw. }
  intros t k Ht Hk. rewrite (Hlook t k _ Ht (Hcol k Hk)).
  rewrite lookup_take_lt by done. rewrite lookup_drop. f_equal. lia.
Qed.

(** The targets of a batch are built and are of shape
    [(batch, L - n, n)]. *)
Lemma batch_targets_shape (n L : nat) (X : list (list Z)) :
  (1 ≤ n < L)%nat → Forall (λ x, length x = L) X →
  ∃ Y, batch_targets (Z.of_nat n) X = Ok Y ∧ has_shape3 (length X) (L - n) n Y.
Proof.
  intros Hn HX. unfold batch_targets.
  destruct (for_each_spec (mtp_targets (Z.of_nat n)) X) as (Y & HY & Hlen & Hlook).
  { eapply Forall_impl; [exact HX|]. cbn. intros x Hx.
    destruct (mtp_targets_spec n L x Hn Hx) as (rows & Hr & _). eauto. }
  exists Y. split; [done|]. split; [done|].
  apply Forall_forall. intros row Hrow.
  apply list_elem_of_lookup in Hrow as [b Hb].
  destruct (lookup_lt_is_Some_2 X b) as [x Hx].
  { rewrite <- Hlen. by eapply lookup_lt_Some. }
  destruct (Hlook b x Hx) as (row' & Hb' & Hrow').
  assert (row' = row) as -> by congruence.
  destruct (mtp_targets_spec n L x Hn) as (rows & Hr & Hl & Hw & _).
  { rewrite Forall_forall in HX. apply HX. by eapply list_elem_of_lookup_2. }
  assert (rows = row) as -> by congruence. done.
Qed.

(** C1. For a batch [X] of rows of length [L] and [1 <= n < L], the
    targets are built, have the shape [(batch, L - n, n)], and their
    entry at batch [b], position [t] and head [k] is [X[b][t + 1 + k]]:
    head [k] sees the input moved forward by [k + 1]. *)
Theorem mtp_target_windows (n L : nat) (X : list (list Z)) :
  (1 ≤ n < L)%nat → Forall (λ x, length x = L) X →
  ∃ Y,
    batch_targets (Z.of_nat n) X = Ok Y ∧
    has_shape3 (length X) (L - n) n Y ∧
    ∀ b x t k, X !! b = Some x → (t < L - n)%nat → (k < n)%nat →
      (Y !! b ≫= (.!! t)) ≫= (.!! k) = x !! (t + 1 + k)%nat
      ∧ is_Some (x !! (t + 1 + k)%nat).
Proof.
  intros Hn HX. unfold batch_targets.
  destruct (for_each_spec (mtp_targets (Z.of_nat n)) X) as (Y & HY & Hlen & Hlook).
  { eapply Forall_impl; [exact HX|]. cbn. intros x Hx.
    destruct (mtp_targets_spec n L x Hn Hx) as (rows & Hr & _). eauto. }
  exists Y. split; [done|]. split.
  - destruct (batch_targets_shape n L X Hn HX) as (Y' & HY' & Hshape).
    unfold batch_targets in HY'. by assert (Y' = Y) as -> by congruence.
  - intros b x t k Hx Ht Hk.
    assert (length x = L) as HxL.
    { rewrite Forall_forall in HX. apply HX. by eapply list_elem_of_lookup_2. }
    destruct (Hlook b x Hx) as (row & Hb & Hrow).
    destruct (mtp_targets_spec n L x Hn HxL) as (rows & Hr & _ & _ & Hent).
    assert (rows = row) as -> by congruence.
    rewrite Hb. cbn. split; [by apply Hent|].
    apply lookup_lt_is_Some_2. lia.
Qed.

Lemma mtp_target_windows_witness :
  (1 ≤ 4 < 30)%nat ∧ Forall (λ x, length x = 30%nat) X_recorded ∧
  ∃ Y, batch_targets 4 X_recorded = Ok Y ∧ has_shape3 1 26 4 Y.
Proof.
  split; [lia|]. split; [repeat constructor|].
  destruct (mtp_target_windows 4 30 X_recorded ltac:(lia) ltac:(repeat constructor))
    as (Y & HY & Hshape & _).
  exists Y. split; [exact HY|exact Hshape].
Defined.

(** ** Cell 5, the other ways through it *)

Section Cell5Errors.
Context (environ : gmap string Z) (gas batch_size max_seq_len : Z).

(** X1. Two ways cell 5 stops under DDP ([RANK] set and not -1), once
    [init_process_group] has returned.  It reads [LOCAL_RANK] with
    [os.environ[...]], so a missing [LOCAL_RANK] raises [KeyError] with
    that name; and a world size that does not divide
    [gradient_accumulation_steps] fails the assertion. *)
Theorem cell5_errors (rank : Z) :
  environ !! "RANK" = Some rank → rank ≠ -1 →
  (environ !! "LOCAL_RANK" = None →
   cell5 environ gas batch_size max_seq_len = Raise (KeyError "LOCAL_RANK")) ∧
  (∀ ws, is_Some (environ !! "LOCAL_RANK") → environ !! "WORLD_SIZE" = Some ws →
         ws ≠ 0 → gas `mod` ws ≠ 0 →
         cell5 environ gas batch_size max_seq_len = Raise AssertionError).
Proof.
  intros Hr Hne.
  assert (Hddp : bool_decide (default (-1) (environ !! "RANK") ≠ -1) = true).
  { rewrite Hr. by apply bool_decide_eq_true. }
  unfold cell5. rewrite Hddp. unfold py_getitem. rewrite Hr. cbn [mbind result_bind].
  split.
  - intros ->. reflexivity.
  - intros ws [l ->] -> Hz Hm. cbn [mbind result_bind]. unfold py_mod.
    rewrite decide_False by done. cbn [mbind result_bind].
    by rewrite (bool_decide_false (gas `mod` ws = 0)).
Qed.

(** X2. With the calls into [torch.distributed] and [torch.cuda] taken
    to return, cell 5 runs through exactly when this is no DDP run
    ([RANK] unset or -1), or [LOCAL_RANK] and [WORLD_SIZE] are set and
    the world size is not zero and divides
    [gradient_accumulation_steps]. *)
Theorem cell5_succeeds_iff :
  (∃ st, cell5 environ gas batch_size max_seq_len = Ok st) ↔
  default (-1) (environ !! "RANK") = -1 ∨
  (is_Some (environ !! "LOCAL_RANK") ∧
   ∃ ws, environ !! "WORLD_SIZE" = Some ws ∧ ws ≠ 0 ∧ gas `mod` ws = 0).
Proof.
  unfold cell5, py_getitem, py_mod, py_floordiv.
  destruct (decide (default (-1) (environ !! "RANK") = -1)) as [Hr|Hr].
  { rewrite bool_decide_false by (intros H; by apply H).
    split; [by left|eauto]. }
  rewrite bool_decide_true by done.
  destruct (environ !! "RANK") as [rank|]; [|done]. cbn [mbind result_bind].
  destruct (environ !! "LOCAL_RANK") as [l|]; cbn [mbind result_bind].
  2:{ split; [by intros [st ?]|]. intros [?|[[? [=]] _]]; done. }
  destruct (environ !! "WORLD_SIZE") as [ws|]; cbn [mbind result_bind].
  2:{ split; [by intros [st ?]|]. intros [?|[_ (ws & [=] & _)]]; done. }
  destruct (decide (ws = 0)) as [Hz|Hz]; cbn [mbind result_bind].
  { split; [by intros [st ?]|]. intros [?|[_ (ws' & [= <-] & ? & _)]]; done. }
  destruct (decide (gas `mod` ws = 0)) as [Hm|Hm].
  - rewrite (bool_decide_true (gas `mod` ws = 0)) by done.
    cbn. split; [|eauto]. intros _. right. split; [eauto|]. eauto.
  - rewrite (bool_decide_false (gas `mod` ws = 0)) by done.
    cbn. split; [by intros [st ?]|].
    intros [?|[_ (ws' & [= <-] & _ & ?)]]; done.
Qed.
End Cell5Errors.

Lemma cell5_errors_witness :
  cell5 {[ "RANK" := 1 ]} 4 1 30 = Raise (KeyError "LOCAL_RANK") ∧
  cell5 {[ "RANK" := 0; "LOCAL_RANK" := 0; "WORLD_SIZE" := 3 ]} 4 1 30
  = Raise AssertionError.
Proof.
  split.
  - refine (proj1 (cell5_errors {[ "RANK" := 1 ]} 4 1 30 1 _ _) _);
      [reflexivity | lia | reflexivity].
  - refine (proj2 (cell5_errors {[ "RANK" := 0; "LOCAL_RANK" := 0; "WORLD_SIZE" := 3 ]}
                     4 1 30 0 _ _) 3 _ _ _ _);
      [reflexivity | lia | by eexists | reflexivity | lia | vm_compute; discriminate].
Defined.

(** ** Cell 12: the learning-rate schedule *)


(** A point between two numbers: [a + x * (b - a)] for [x] from 0 to 1. *)
Lemma Qc_between (a b x : Qc) :
  (a ≤ b)%Qc → (0 ≤ x)%Qc → (x ≤ 1)%Qc →
  (a ≤ a + x * (b - a))%Qc ∧ (a + x * (b - a) ≤ b)%Qc.
Proof.
  intros Hab H0 H1.
  assert (Hd : (0 ≤ b - a)%Qc).
  { unfold Qcminus. by apply (proj1 (Qcle_minus_iff a b)). }
  split.
  - apply (proj2 (Qcle_minus_iff _ _)).
    replace (a + x * (b - a) + - a)%Qc with (x * (b - a))%Qc by ring.
    rewrite <- (Qcmult_0_l (b - a)). by apply (Qcmult_le_compat_r 0 x (b - a)).
  - apply (proj2 (Qcle_minus_iff _ _)).
    replace (b + - (a + x * (b - a)))%Qc with ((1 - x) * (b - a))%Qc by ring.
    rewrite <- (Qcmult_0_l (b - a)). apply (Qcmult_le_compat_r 0 (1 - x) (b - a)); [|done].
    unfold Qcminus. by apply (proj1 (Qcle_minus_iff x 1)).
Qed.

Lemma Qcmult_le_compat_l' (x y z : Qc) :
  (x ≤ y)%Qc → (0 ≤ z)%Qc → (z * x ≤ z * y)%Qc.
Proof. intros Hxy Hz. rewrite !(Qcmult_comm z). by apply (Qcmult_le_compat_r x y z). Qed.


Section Schedule.
Context (T : Torch) (cfg : config).

(** X3. With [it] and [warmup_iters] within the range of a float,
    [get_lr] raises in two cases only, both a division by zero:
    [warmup_iters = 0] with a negative iteration number, and an iteration
    number that is [warmup_iters] and [lr_decay_iters] at once.  Its
    assertion [0 <= decay_ratio <= 1] never fails.  (An int beyond that
    range makes [learning_rate * it / warmup_iters] raise
    [OverflowError], which [get_lr] here does not model.) *)
Theorem get_lr_raises_iff (it : Z) (e : exn) :
  fits_float it → fits_float (warmup_iters cfg) →
  (get_lr T cfg it = Raise e ↔
   e = ZeroDivisionError ∧
   ((it < warmup_iters cfg ∧ warmup_iters cfg = 0) ∨
    (it = warmup_iters cfg ∧ it = lr_decay_iters cfg))).
Proof.
  intros _ _. unfold get_lr.
  destruct (decide (it < warmup_iters cfg)) as [Hw|Hw].
  { destruct (decide (warmup_iters cfg = 0)) as [H0|H0].
    - split; [intros [= <-]; auto|]. by intros [-> _].
    - split; [done|]. intros [_ [[_ ?]|[? _]]]; [done|lia]. }
  destruct (decide (it > lr_decay_iters cfg)) as [Hd|Hd].
  { split; [done|]. intros [_ [[? _]|[_ ?]]]; lia. }
  destruct (decide (lr_decay_iters cfg - warmup_iters cfg = 0)) as [H0|H0].
  { split; [intros [= <-]|by intros [-> _]]. split; [done|]. right. lia. }
  rewrite bool_decide_true by (apply decay_ratio_bounds; lia).
  cbn. split; [done|]. intros [_ [[? _]|[? ?]]]; lia.
Qed.

(** X4. With a cosine that stays between -1 and 1 and
    [0 <= min_lr <= learning_rate], the learning rate of an iteration
    from 0 on lies between 0 and [learning_rate], and from [warmup_iters]
    on it is not below [min_lr]. *)
Theorem get_lr_range (it : Z) (lr : Qc) :
  (∀ x, (0 ≤ x)%Qc → (x ≤ 1)%Qc → (- (1) ≤ cos_pi T x)%Qc ∧ (cos_pi T x ≤ 1)%Qc) →
  (0 ≤ min_lr cfg)%Qc → (min_lr cfg ≤ learning_rate cfg)%Qc →
  0 ≤ it →
  get_lr T cfg it = Ok lr →
  (0 ≤ lr)%Qc ∧ (lr ≤ learning_rate cfg)%Qc ∧
  (warmup_iters cfg ≤ it → (min_lr cfg ≤ lr)%Qc).
Proof.
  intros Hcos Hmin Hmax Hit. unfold get_lr.
  assert (Hlr : (0 ≤ learning_rate cfg)%Qc) by by trans (min_lr cfg).
  destruct (decide (it < warmup_iters cfg)) as [Hw|Hw].
  { rewrite decide_False by lia. intros [= <-].
    destruct (decay_ratio_bounds it (warmup_iters cfg)) as [R0 R1]; [lia|lia|].
    destruct (Qc_between 0 (learning_rate cfg)
                (Qc_of_Z it / Qc_of_Z (warmup_iters cfg)) Hlr R0 R1) as [B0 B1].
    replace (learning_rate cfg * Qc_of_Z it / Qc_of_Z (warmup_iters cfg))%Qc
      with (0 + Qc_of_Z it / Qc_of_Z (warmup_iters cfg) * (learning_rate cfg - 0))%Qc
      by (unfold Qcdiv; ring).
    split; [done|]. split; [done|]. intros ?. lia. }
  destruct (decide (it > lr_decay_iters cfg)) as [Hd|Hd].
  { intros [= <-]. done. }
  destruct (decide (lr_decay_iters cfg - warmup_iters cfg = 0)) as [H0|H0]; [done|].
  destruct (decay_ratio_bounds (it - warmup_iters cfg)
              (lr_decay_iters cfg - warmup_iters cfg)) as [R0 R1]; [lia|lia|].
  rewrite bool_decide_true by done. cbn. intros [= <-].
  destruct (Hcos _ R0 R1) as [C0 C1].
  set (c := cos_pi T _) in *.
  assert (Hh : (0 ≤ Q2Qc (1 # 2))%Qc) by (vm_compute; discriminate).
  assert (K0 : (0 ≤ Q2Qc (1 # 2) * (1 + c))%Qc).
  { rewrite <- (Qcmult_0_r (Q2Qc (1 # 2))).
    apply Qcmult_le_compat_l'; [|done].
    apply (proj2 (Qcle_minus_iff _ _)).
    replace (1 + c + - 0)%Qc with (c + - - (1))%Qc by ring.
    by apply (proj1 (Qcle_minus_iff _ _)). }
  assert (K1 : (Q2Qc (1 # 2) * (1 + c) ≤ 1)%Qc).
  { assert (E : (Q2Qc (1 # 2) * (1 + 1))%Qc = 1%Qc).
    { apply Qc_is_canon. vm_compute. reflexivity. }
    apply (Qcle_trans _ (Q2Qc (1 # 2) * (1 + 1))%Qc); [|rewrite E; apply Qcle_refl].
    apply Qcmult_le_compat_l'; [|done].
    apply Qcplus_le_compat; [apply Qcle_refl|done]. }
  destruct (Qc_between (min_lr cfg) (learning_rate cfg) _ Hmax K0 K1) as [B0 B1].
  split; [by trans (min_lr cfg)|]. split; [done|]. done.
Qed.

(** X5. The ends of the cosine part, with [cos 0 = 1] and
    [cos pi = -1]: the schedule reaches [learning_rate] at the end of the
    warm-up, is down to [min_lr] at [lr_decay_iters], and stays there. *)
Theorem get_lr_schedule_ends :
  cos_pi T 0 = 1%Qc → cos_pi T 1 = (- (1))%Qc →
  warmup_iters cfg < lr_decay_iters cfg →
  get_lr T cfg (warmup_iters cfg) = Ok (learning_rate cfg) ∧
  get_lr T cfg (lr_decay_iters cfg) = Ok (min_lr cfg) ∧
  ∀ it, lr_decay_iters cfg < it → get_lr T cfg it = Ok (min_lr cfg).
Proof.
  intros Hc0 Hc1 Hlt.
  assert (Hne : Qc_of_Z (lr_decay_iters cfg - warmup_iters cfg) ≠ 0%Qc)
    by (apply Qc_of_Z_pos_ne_0; lia).
  split; [|split].
  - unfold get_lr. rewrite !decide_False by lia.
    replace (warmup_iters cfg - warmup_iters cfg) with 0 by lia.
    assert (Qc_of_Z 0 / Qc_of_Z (lr_decay_iters cfg - warmup_iters cfg) = 0)%Qc as ->.
    { unfold Qcdiv. apply Qcmult_0_l. }
    rewrite bool_decide_true by done. cbn. rewrite Hc0. f_equal.
    replace (Q2Qc (1 # 2) * (1 + 1))%Qc with 1%Qc by (apply Qc_is_canon; vm_compute; reflexivity).
    ring.
  - unfold get_lr. rewrite !decide_False by lia.
    assert (Qc_of_Z (lr_decay_iters cfg - warmup_iters cfg)
            / Qc_of_Z (lr_decay_iters cfg - warmup_iters cfg) = 1)%Qc as ->.
    { unfold Qcdiv. by apply Qcmult_inv_r. }
    rewrite bool_decide_true by done. cbn. rewrite Hc1. f_equal. ring.
  - intros it Hit. unfold get_lr. rewrite decide_False by lia.
    by rewrite decide_True by lia.
Qed.

End Schedule.

Lemma least_squares_cos_range (x : Qc) :
  (0 ≤ x)%Qc → (x ≤ 1)%Qc →
  (- (1) ≤ cos_pi least_squares x)%Qc ∧ (cos_pi least_squares x ≤ 1)%Qc.
Proof.
  intros H0 H1. cbn.
  destruct (Qc_between (- (1)) 1 (1 - x)) as [B0 B1].
  - done.
  - unfold Qcminus. by apply (proj1 (Qcle_minus_iff x 1)).
  - apply (proj2 (Qcle_minus_iff _ _)).
    replace (1 + - (1 - x))%Qc with (x + - 0)%Qc by ring.
    by apply (proj1 (Qcle_minus_iff 0 x)).
  - replace (1 - (1 + 1) * x)%Qc with (- (1) + (1 - x) * (1 - - (1)))%Qc by ring.
    done.
Qed.

(** Cell 3 with [max_iters = 1000]: [get_lr(1000)] divides by zero, and
    no other iteration number makes it raise. *)
Lemma get_lr_raises_iff_witness :
  let cfg := cell3 1000 false single_process in
  fits_float 1000 ∧ fits_float (warmup_iters cfg) ∧
  get_lr least_squares cfg 1000 = Raise ZeroDivisionError ∧
  ∀ e, get_lr least_squares cfg 999 ≠ Raise e.
Proof.
  intros cfg.
  assert (H1000 : fits_float 1000) by (vm_compute; reflexivity).
  split; [exact H1000|]. split; [exact H1000|]. split.
  - apply (get_lr_raises_iff least_squares cfg 1000 ZeroDivisionError H1000 H1000).
    split; [reflexivity|]. right. split; reflexivity.
  - intros e He.
    apply (get_lr_raises_iff least_squares cfg 999 e) in He as (_ & [[_ H]|[H _]]);
      [discriminate H | discriminate H | vm_compute; reflexivity | exact H1000].
Defined.

Lemma get_lr_range_witness :
  ∃ lr, get_lr least_squares notebook_config 50500 = Ok lr ∧
        (0 ≤ lr)%Qc ∧ (lr ≤ learning_rate notebook_config)%Qc.
Proof.
  eexists. split; [vm_compute; reflexivity|].
  destruct (get_lr_range least_squares notebook_config 50500 _
              least_squares_cos_range ltac:(done) ltac:(done) ltac:(lia)
              ltac:(vm_compute; reflexivity)) as (H0 & H1 & _).
  split; [exact H0|exact H1].
Defined.

Lemma get_lr_schedule_ends_witness :
  get_lr least_squares notebook_config 1000 = Ok (learning_rate notebook_config) ∧
  get_lr least_squares notebook_config 100000 = Ok (min_lr notebook_config).
Proof.
  destruct (get_lr_schedule_ends least_squares notebook_config) as (H0 & H1 & _).
  - apply Qc_is_canon. vm_compute. reflexivity.
  - apply Qc_is_canon. vm_compute. reflexivity.
  - cbn. lia.
  - split; [exact H0|exact H1].
Defined.


(** ** What every run of the loop maintains *)

Lemma quiet_ext_forwards (tr tr' : list event) :
  quiet_ext tr tr' → forwards_of tr' = forwards_of tr.
Proof.
  induction 1 as [|e tr' He _ IH]; [done|].
  unfold forwards_of in *. rewrite project_cons, IH.
  destruct e; try discriminate; simpl; by rewrite app_nil_r.
Qed.

Section RunInvariants.
Context (T : Torch) (cfg : config).

Local Abbreviation gas := (gradient_accumulation_steps (setup cfg)).

Global Instance batches_in_order_preorder : PreOrder (batches_in_order T).
Proof.
  split.
  - intros s. exists 0%nat. split; [lia|]. by rewrite app_nil_r.
  - intros s1 s2 s3 (n & B12 & F12) (m & B23 & F23). exists (n + m)%nat.
    split; [lia|]. rewrite F23, F12, B12, <- app_assoc. f_equal.
    by rewrite seq_app.
Qed.

Global Instance batches_per_step_preorder : PreOrder (batches_per_step T cfg).
Proof.
  split.
  - intros s. exists 0%nat. split; lia.
  - intros s1 s2 s3 (n & S12 & B12) (m & S23 & B23). exists (n + m)%nat.
    split; lia.
Qed.

Global Instance silent_preorder : PreOrder (silent T).
Proof.
  split.
  - intros s. by repeat split.
  - intros s1 s2 s3 (A1 & A2 & A3 & A4 & A5 & A6) (B1 & B2 & B3 & B4 & B5 & B6).
    unfold silent. by rewrite B1, B2, B3, B4, B5, B6.
Qed.

Lemma forwards_of_micro_events (s : state T) (m : nat) (tr : list event) :
  forwards_of ((reverse (seq 0 m) ≫= micro_events T cfg s) ++ tr)
  = forwards_of tr ++ seq (batch_index s) m.
Proof.
  induction m as [|m IH].
  { simpl. by rewrite app_nil_r. }
  rewrite !seq_S, reverse_snoc.
  cbn [mbind list_bind app micro_events fmap list_fmap Nat.add].
  unfold forwards_of in *. rewrite !project_cons, IH. simpl.
  by rewrite app_nil_r, <- app_assoc.
Qed.

(** The state the micro-steps and the optimizer step leave to the log
    line. *)
Lemma update_state (s : state T) :
  let s4 := optimizer_update T cfg (micro_steps T cfg s) in
  iter_num s4 = iter_num s ∧ local_iter_num s4 = local_iter_num s ∧
  best_val_loss s4 = best_val_loss s ∧ config_dict s4 = config_dict s ∧
  grad s4 = None ∧
  batch_index s4 = (batch_index s + Z.to_nat gas)%nat ∧
  trace s4 = EvStep (iter_num s)
             :: (reverse (seq 0 (Z.to_nat gas)) ≫= micro_events T cfg s) ++ trace s.
Proof.
  destruct (micro_steps_spec T cfg s)
    as ((M1 & M2 & M3 & _ & _ & _ & _ & M8) & Mb & Mt & _).
  set (s3 := micro_steps T cfg s) in *.
  destruct (optimizer_update_spec T cfg s3)
    as (U1 & U2 & U3 & _ & Uc & Ub & _ & _ & Ug & Ut).
  cbn zeta. rewrite U1, U2, U3, Uc, Ub, Ut, M1, M2, M3, M8, Mb, Mt. done.
Qed.

(** The log line: it raises on a zero interval or an unbound [loss], and
    else adds its event when the guard holds. *)
Lemma log_block_cases (s : state T) :
  (∃ e, log_block T cfg s = Raised e s) ∨
  (logs cfg (iter_num s) = false ∧ log_block T cfg s = Continue s) ∨
  (logs cfg (iter_num s) = true ∧
   ∃ lossf, log_block T cfg s = Continue (emit T (EvLog (iter_num s) lossf) s)).
Proof.
  unfold log_block, logs, py_mod, eval_in.
  destruct (decide (log_interval cfg = 0)); [eauto|].
  destruct (bool_decide _ && master_process _); [|eauto].
  destruct (loss s); eauto.
Qed.

(** The trace after the update and the log line, however they end. *)
Lemma update_and_log_trace (s : state T) :
  let s' := outcome_state (update_and_log T cfg s) in
  batch_index s' = (batch_index s + Z.to_nat gas)%nat ∧
  forwards_of (trace s') = forwards_of (trace s) ++ seq (batch_index s) (Z.to_nat gas) ∧
  steps_of (trace s') = steps_of (trace s) ++ [iter_num s] ∧
  wandb_of (trace s') = wandb_of (trace s) ∧
  (master_process (setup cfg) = false → logs_of (trace s') = logs_of (trace s)).
Proof.
  unfold update_and_log.
  destruct (update_state s) as (U1 & _ & _ & _ & _ & Ub & Ut).
  set (s4 := optimizer_update T cfg (micro_steps T cfg s)) in *.
  assert (H4 : forwards_of (trace s4)
               = forwards_of (trace s) ++ seq (batch_index s) (Z.to_nat gas)
               ∧ steps_of (trace s4) = steps_of (trace s) ++ [iter_num s]
               ∧ wandb_of (trace s4) = wandb_of (trace s)
               ∧ logs_of (trace s4) = logs_of (trace s)).
  { rewrite Ut. split; [|split; [|split]].
    - unfold forwards_of at 1. rewrite project_cons. fold forwards_of.
      rewrite forwards_of_micro_events. simpl. by rewrite app_nil_r.
    - unfold steps_of at 1. rewrite project_cons. fold steps_of.
      by rewrite steps_of_micro_events.
    - unfold wandb_of. rewrite project_cons. simpl. rewrite app_nil_r.
      by rewrite project_micro_events.
    - unfold logs_of. rewrite project_cons. simpl. rewrite app_nil_r.
      by rewrite project_micro_events. }
  destruct H4 as (F4 & S4 & W4 & L4).
  destruct (log_block_cases s4) as [[e ->]|[[_ ->]|[Hl [lossf ->]]]];
    cbn [outcome_state]; try done.
  cbn [batch_index trace emit].
  unfold forwards_of, steps_of, wandb_of, logs_of in *.
  rewrite !project_cons. simpl. rewrite !app_nil_r.
  repeat split; try done.
  intros Hm. unfold logs in Hl. rewrite Hm, andb_false_r in Hl. done.
Qed.

Lemma body_batches_in_order : preserves (batches_in_order T) (body T cfg).
Proof.
  apply body_preserves; [apply _|..]; intros s.
  - destruct (assign_lr_state T cfg s) as [->|[lr ->]]; exists 0%nat;
      (split; [cbn; lia|by rewrite app_nil_r]).
  - destruct (eval_block_frame T cfg s)
      as (_ & _ & _ & _ & _ & _ & _ & _ & _ & _ & Hb & Hq).
    exists 0%nat. split; [lia|].
    rewrite (quiet_ext_forwards _ _ Hq). by rewrite app_nil_r.
  - rewrite eval_only_check_state. reflexivity.
  - destruct (update_and_log_trace s) as (Hb & Hf & _).
    by exists (Z.to_nat gas).
  - rewrite advance_state. exists 0%nat. split; [cbn; lia|].
    by rewrite app_nil_r.
Qed.

Lemma body_batches_per_step : preserves (batches_per_step T cfg) (body T cfg).
Proof.
  apply body_preserves; [apply _|..]; intros s.
  - destruct (assign_lr_state T cfg s) as [->|[lr ->]]; exists 0%nat;
      (split; cbn; lia).
  - destruct (eval_block_frame T cfg s)
      as (_ & _ & _ & _ & _ & _ & _ & _ & _ & _ & Hb & Hq).
    exists 0%nat. rewrite (quiet_ext_steps _ _ Hq). split; lia.
  - rewrite eval_only_check_state. reflexivity.
  - destruct (update_and_log_trace s) as (Hb & _ & Hs & _).
    exists 1%nat. rewrite Hs, length_app. cbn. split; lia.
  - rewrite advance_state. exists 0%nat. cbn. split; lia.
Qed.

(** X7. In every run, whatever its length and however it ends, the
    forward passes read the training stream batch by batch: each batch
    once, in order, none skipped; and there are
    [gradient_accumulation_steps] of them for every optimizer step. *)
Theorem batches_read_in_order (fuel : nat) (s : state T) (f : final (state T)) :
  while_true T cfg fuel s = Some f →
  let s' := final_state f in
  let new_batches := (batch_index s' - batch_index s)%nat in
  let new_steps := (length (steps_of (trace s')) - length (steps_of (trace s)))%nat in
  forwards_of (trace s') = forwards_of (trace s) ++ seq (batch_index s) new_batches ∧
  new_batches = (new_steps * Z.to_nat gas)%nat ∧
  (batch_index s ≤ batch_index s')%nat ∧
  (length (steps_of (trace s)) ≤ length (steps_of (trace s')))%nat.
Proof.
  intros Hrun s' nb ns.
  destruct (while_true_preserves T cfg (batches_in_order T) fuel s f
              body_batches_in_order Hrun) as (n & Hn & Hf).
  destruct (while_true_preserves T cfg (batches_per_step T cfg) fuel s f
              body_batches_per_step Hrun) as (m & Hm & Hb).
  fold s' in Hn, Hf, Hm, Hb. subst nb ns.
  replace (batch_index s' - batch_index s)%nat with n by lia.
  split; [done|]. split; [|lia].
  replace (length (steps_of (trace s')) - length (steps_of (trace s)))%nat
    with m by lia.
  lia.
Qed.
End RunInvariants.

Section MoreInvariants.
Context (T : Torch) (cfg : config).

Local Abbreviation gas := (gradient_accumulation_steps (setup cfg)).

Lemma eval_block_non_master (s : state T) :
  master_process (setup cfg) = false → outcome_state (eval_block T cfg s) = s.
Proof.
  intros Hm. rewrite eval_block_unfold. unfold evaluates.
  rewrite Hm, andb_false_r. by destruct (decide _).
Qed.

Lemma body_silent :
  master_process (setup cfg) = false → preserves (silent T) (body T cfg).
Proof.
  intros Hm. apply body_preserves; [apply _|..]; intros s.
  - by destruct (assign_lr_state T cfg s) as [->|[lr ->]].
  - by rewrite eval_block_non_master.
  - by rewrite eval_only_check_state.
  - destruct (update_and_log_frame T cfg s) as (_ & Hb & _ & He & Hs & Hx).
    destruct (update_and_log_trace T cfg s) as (_ & _ & _ & Hw & Hl).
    repeat split; try done. by apply Hl.
  - by rewrite advance_state.
Qed.

(** X8. A process that is not the master ([RANK] other than 0 under
    DDP) trains and nothing else: whatever the run, it never evaluates,
    never logs, never writes a checkpoint or an export, and its
    [best_val_loss] stays what it was. *)
Theorem non_master_is_silent (fuel : nat) (s : state T) (f : final (state T)) :
  master_process (setup cfg) = false →
  while_true T cfg fuel s = Some f →
  let s' := final_state f in
  evals_of (trace s') = evals_of (trace s) ∧
  logs_of (trace s') = logs_of (trace s) ∧
  wandb_of (trace s') = wandb_of (trace s) ∧
  saves_of (trace s') = saves_of (trace s) ∧
  exports_of (trace s') = exports_of (trace s) ∧
  best_val_loss s' = best_val_loss s.
Proof.
  intros Hm Hrun s'.
  destruct (while_true_preserves T cfg (silent T) fuel s f (body_silent Hm) Hrun)
    as (Hb & He & Hw & Hs & Hx & Hl).
  by repeat split.
Qed.

Lemma eval_block_logs (s : state T) :
  logs_of (trace (outcome_state (eval_block T cfg s))) = logs_of (trace s).
Proof.
  rewrite eval_block_unfold. unfold save_checkpoint.
  repeat case_match; cbn; unfold logs_of; rewrite ?project_cons; cbn;
    by rewrite ?app_nil_r.
Qed.

(** A pass through the body that runs the update and raises nothing. *)
Lemma body_schedule (s s' : state T) :
  body T cfg s = Continue s' ∨
  (body T cfg s = Break s' ∧ ¬ (iter_num s = 0 ∧ eval_only cfg = true)) →
  iter_num s' = iter_num s + 1 ∧
  (body T cfg s = Continue s' → iter_num s' ≤ max_iters cfg) ∧
  (body T cfg s = Break s' → max_iters cfg < iter_num s') ∧
  evals_of (trace s')
  = evals_of (trace s) ++ (if evaluates cfg (iter_num s) then [iter_num s] else []) ∧
  logs_of (trace s')
  = logs_of (trace s) ++ (if logs cfg (iter_num s) then [iter_num s] else []).
Proof.
  unfold body.
  destruct (assign_lr_cases T cfg s) as [[lr ->]|[e ->]]; [|by intros [?|[? _]]].
  cbn [and_then].
  destruct (decide (eval_interval cfg = 0)) as [He|He].
  { rewrite eval_block_unfold, decide_True by done. by intros [?|[? _]]. }
  pose proof (eval_block_frame T cfg (set_lr T lr s)) as (F1 & _).
  pose proof (eval_block_evals T cfg (set_lr T lr s) He) as Fe.
  pose proof (eval_block_logs (set_lr T lr s)) as Fl.
  destruct (eval_block T cfg (set_lr T lr s)) as [s2|s2|e s2] eqn:Hev;
    [|by destruct (eval_block_never_breaks T cfg _ _ Hev)
     |cbn [and_then]; by intros [?|[? _]]].
  cbn in F1, Fe, Fl. cbn [and_then]. unfold eval_only_check.
  destruct (bool_decide (iter_num s2 = 0) && eval_only cfg) eqn:Hc.
  { cbn [and_then]. intros [?|[_ Hno]]; [done|]. exfalso. apply Hno.
    apply andb_true_iff in Hc as [Hc ->]. apply bool_decide_eq_true in Hc.
    split; [congruence|done]. }
  cbn [and_then]. unfold update_and_log.
  destruct (update_state T cfg s2) as (U1 & _ & _ & _ & _ & _ & Ut).
  set (s4 := optimizer_update T cfg (micro_steps T cfg s2)) in *.
  assert (H4 : evals_of (trace s4) = evals_of (trace s2)
               ∧ logs_of (trace s4) = logs_of (trace s2)).
  { rewrite Ut. unfold evals_of, logs_of. rewrite !project_cons. simpl.
    rewrite !app_nil_r. by rewrite !project_micro_events. }
  destruct H4 as [E4 L4].
  assert (Hlog : ∀ s5, log_block T cfg s4 = Continue s5 →
            iter_num s5 = iter_num s ∧
            evals_of (trace s5)
            = evals_of (trace s)
              ++ (if evaluates cfg (iter_num s) then [iter_num s] else []) ∧
            logs_of (trace s5)
            = logs_of (trace s) ++ (if logs cfg (iter_num s) then [iter_num s] else [])).
  { intros s5.
    destruct (log_block_cases T cfg s4) as [[e ->]|[[Hl ->]|[Hl [lossf ->]]]];
      [done|..]; intros [= <-]; rewrite U1, F1 in Hl; cbn in Hl; rewrite Hl.
    - cbn. rewrite U1, F1, E4, L4, Fe, Fl, app_nil_r. done.
    - cbn [iter_num trace emit]. unfold evals_of, logs_of in *.
      rewrite !project_cons. cbn. rewrite app_nil_r.
      rewrite U1, F1, E4, L4, Fe, Fl. done. }
  destruct (log_block T cfg s4) as [s5|s5|e s5] eqn:Hl5; cbn [and_then];
    [|by destruct (log_block_never_breaks T cfg _ _ Hl5)|by intros [?|[? _]]].
  destruct (Hlog s5 eq_refl) as (H5 & E5 & L5).
  unfold advance.
  destruct (bool_decide (iter_num (incr_iter T s5) > max_iters cfg)) eqn:Hgt.
  - apply bool_decide_eq_true in Hgt. intros [?|[[= <-] _]]; [done|].
    cbn in *. repeat split; try done; lia.
  - apply bool_decide_eq_false in Hgt. intros [[= <-]|[? _]]; [|done].
    cbn in *. repeat split; try done; lia.
Qed.

(** X10. A run that leaves the loop by the [max_iters] test has passed
    the iterations from its first to [max_iters], has evaluated at
    exactly those of them that [eval_interval] divides, and has printed
    a log line at exactly those that [log_interval] divides, both on the
    master process only. *)
Theorem evaluation_schedule (fuel : nat) (s s' : state T) :
  eval_only cfg = false ∨ 0 < iter_num s →
  while_true T cfg fuel s = Some (Exited s') →
  max_iters cfg < iter_num s' ∧ iter_num s < iter_num s' ∧
  (iter_num s ≤ max_iters cfg → iter_num s' = max_iters cfg + 1) ∧
  let passed := seqZ (iter_num s) (iter_num s' - iter_num s) in
  evals_of (trace s') = evals_of (trace s) ++ List.filter (evaluates cfg) passed ∧
  logs_of (trace s') = logs_of (trace s) ++ List.filter (logs cfg) passed.
Proof.
  revert s. induction fuel as [|fuel IH]; intros s Hno; [done|].
  cbn [while_true].
  destruct (body T cfg s) as [s1|s1|e s1] eqn:Hb; [| |done].
  - intros Hrun.
    destruct (body_schedule s s1) as (H1 & Hle & _ & He & Hl); [by left|].
    specialize (Hle Hb).
    destruct (IH s1) as (Hmax & Hlt & Hend & He' & Hl');
      [destruct Hno; [by left|right; lia]|done|].
    split; [done|]. split; [lia|]. split; [intros _; apply Hend; lia|].
    cbn zeta in *. rewrite (seqZ_cons (iter_num s)) by lia.
    replace (Z.succ (iter_num s)) with (iter_num s1) by lia.
    replace (Z.pred (iter_num s' - iter_num s)) with (iter_num s' - iter_num s1) by lia.
    cbn [List.filter]. rewrite He', Hl', He, Hl, <- !app_assoc.
    split; f_equal;
      [by destruct (evaluates cfg (iter_num s))|by destruct (logs cfg (iter_num s))].
  - intros [= <-].
    destruct (body_schedule s s1) as (H1 & _ & Hgt & He & Hl).
    { right. split; [done|]. intros [H0 Heo]. destruct Hno; [congruence|lia]. }
    specialize (Hgt Hb).
    split; [done|]. split; [lia|]. split; [lia|].
    cbn zeta. replace (iter_num s1 - iter_num s) with 1 by lia.
    rewrite seqZ_cons by lia. rewrite (seqZ_nil _ (Z.pred 1)) by lia.
    rewrite He, Hl. cbn [List.filter]. done.
Qed.

(** X11. [eval_interval = 0]: the first pass through the loop raises
    [ZeroDivisionError] in the guard of the evaluation block, on every
    process (the [%] is evaluated before [master_process] is looked at),
    before anything was evaluated or trained. *)
Theorem zero_eval_interval_raises (fuel : nat) (s : state T) :
  eval_interval cfg = 0 → 0 ≤ iter_num s → lr_defined cfg (iter_num s) →
  ∃ s',
    while_true T cfg (S fuel) s = Some (Crashed ZeroDivisionError s') ∧
    trace s' = trace s ∧ params s' = params s ∧ iter_num s' = iter_num s.
Proof.
  intros He Hit Hlr.
  destruct (assign_lr_ok T cfg s Hit Hlr) as [lr Hassign].
  exists (set_lr T lr s). split; [|done].
  cbn [while_true]. unfold body. rewrite Hassign. cbn [and_then].
  rewrite eval_block_unfold, decide_True by done. done.
Qed.

(** X12. [log_interval = 0]: the first pass raises [ZeroDivisionError]
    in the guard of the log line, on every process, after the optimizer
    step of that iteration: the parameters are updated and the gradients
    cleared, and the iteration is not counted. *)
Theorem zero_log_interval_raises (fuel : nat) (s : state T) :
  log_interval cfg = 0 → eval_interval cfg ≠ 0 →
  0 ≤ iter_num s → lr_defined cfg (iter_num s) →
  is_Some (config_dict s) ∨ evaluates cfg (iter_num s) = false ∨ iter_num s ≤ 0 →
  ¬ (iter_num s = 0 ∧ eval_only cfg = true) →
  ∃ s',
    while_true T cfg (S fuel) s = Some (Crashed ZeroDivisionError s') ∧
    steps_of (trace s') = steps_of (trace s) ++ [iter_num s] ∧
    logs_of (trace s') = logs_of (trace s) ∧
    grad s' = None ∧ iter_num s' = iter_num s.
Proof.
  intros Hl He Hit Hlr Hsave Hno.
  destruct (assign_lr_ok T cfg s Hit Hlr) as [lr Hassign].
  destruct (eval_block_safe T cfg (set_lr T lr s) He Hsave) as [s2 H2].
  pose proof (eval_block_frame T cfg (set_lr T lr s)) as Hf.
  pose proof (eval_block_logs (set_lr T lr s)) as Fl.
  rewrite H2 in Hf, Fl. cbn in Hf, Fl.
  destruct Hf as (F1 & _ & _ & _ & _ & _ & _ & _ & _ & _ & _ & Fq).
  destruct (update_state T cfg s2) as (U1 & _ & _ & _ & Ug & _ & Ut).
  set (s4 := optimizer_update T cfg (micro_steps T cfg s2)) in *.
  exists s4. split.
  { cbn [while_true]. unfold body. rewrite Hassign. cbn [and_then].
    rewrite H2. cbn [and_then]. unfold eval_only_check.
    assert (bool_decide (iter_num s2 = 0) && eval_only cfg = false) as ->.
    { rewrite F1. destruct (eval_only cfg), (decide (iter_num s = 0)).
      - exfalso. auto.
      - by rewrite bool_decide_false.
      - apply andb_false_r.
      - apply andb_false_r. }
    cbn [and_then]. unfold update_and_log. fold s4.
    unfold log_block, py_mod. rewrite decide_True by done. done. }
  rewrite Ut. unfold steps_of at 1. unfold logs_of at 1.
  rewrite !project_cons. fold steps_of logs_of. cbn [option_list].
  rewrite steps_of_micro_events, (quiet_ext_steps _ _ Fq), F1, app_nil_r.
  unfold logs_of at 1. rewrite project_micro_events by done. fold logs_of.
  repeat split; try done. lia.
Qed.

(** A pass that raises does so in the iteration it started in. *)
Lemma body_raised_iter (s s' : state T) (e : exn) :
  body T cfg s = Raised e s' → iter_num s' = iter_num s.
Proof.
  unfold body.
  destruct (assign_lr_cases T cfg s) as [[lr ->]|[e' ->]];
    [|by intros [= _ <-]].
  cbn [and_then].
  pose proof (eval_block_frame T cfg (set_lr T lr s)) as (F1 & _).
  destruct (eval_block T cfg (set_lr T lr s)) as [s2|s2|e2 s2];
    cbn in F1; cbn [and_then]; [|done|by intros [= _ <-]].
  unfold eval_only_check. destruct (_ && _); [done|]. cbn [and_then].
  pose proof (update_and_log_frame T cfg s2) as (U1 & _).
  destruct (update_and_log T cfg s2) as [s5|s5|e5 s5];
    cbn in U1; cbn [and_then]; [|done|intros [= _ <-]; congruence].
  unfold advance. by destruct (bool_decide _).
Qed.

(** A pass that runs the update adds the one optimizer step of its
    iteration. *)
Lemma body_pass_steps (s s' : state T) :
  body T cfg s = Continue s' ∨
  (body T cfg s = Break s' ∧ ¬ (iter_num s = 0 ∧ eval_only cfg = true)) →
  steps_of (trace s') = steps_of (trace s) ++ [iter_num s].
Proof.
  unfold body.
  destruct (assign_lr_cases T cfg s) as [[lr ->]|[e ->]]; [|by intros [?|[? _]]].
  cbn [and_then].
  pose proof (eval_block_frame T cfg (set_lr T lr s))
    as (F1 & _ & _ & _ & _ & _ & _ & _ & _ & _ & _ & Fq).
  destruct (eval_block T cfg (set_lr T lr s)) as [s2|s2|e s2] eqn:Hev;
    [|by destruct (eval_block_never_breaks T cfg _ _ Hev)
     |cbn [and_then]; by intros [?|[? _]]].
  cbn in F1, Fq. cbn [and_then]. unfold eval_only_check.
  destruct (bool_decide (iter_num s2 = 0) && eval_only cfg) eqn:Hc.
  { cbn [and_then]. intros [?|[_ Hno]]; [done|]. exfalso. apply Hno.
    apply andb_true_iff in Hc as [Hc ->]. apply bool_decide_eq_true in Hc.
    split; [congruence|done]. }
  cbn [and_then].
  destruct (update_and_log_trace T cfg s2) as (_ & _ & Hs & _).
  rewrite (quiet_ext_steps _ _ Fq), F1 in Hs.
  destruct (update_and_log T cfg s2) as [s5|s5|e s5]; cbn in Hs; cbn [and_then];
    [|by intros [?|[[= <-] _]]|by intros [?|[? _]]].
  unfold advance. cbn zeta.
  destruct (bool_decide (iter_num (incr_iter T s5) > max_iters cfg)).
  - by intros [?|[[= <-] _]].
  - by intros [[= <-]|[? _]].
Qed.

(** The loop ends within the passes that are left up to [max_iters]. *)
Lemma while_true_ends (n : nat) (s : state T) (extra : nat) :
  eval_only cfg = false ∨ 0 < iter_num s →
  Z.of_nat n = Z.max (iter_num s) (max_iters cfg) - iter_num s →
  ∃ f,
    while_true T cfg (S n + extra) s = Some f ∧
    match f with
    | Exited s' =>
        iter_num s' = iter_num s + Z.of_nat n + 1 ∧
        steps_of (trace s')
        = steps_of (trace s) ++ seqZ (iter_num s) (Z.of_nat n + 1)
    | Crashed _ s' => iter_num s ≤ iter_num s' ≤ iter_num s + Z.of_nat n
    end.
Proof.
  revert s. induction n as [|n IH]; intros s Hno Hn;
    cbn [Nat.add while_true];
    destruct (body T cfg s) as [s1|s1|e s1] eqn:Hb.
  - destruct (body_schedule s s1) as (_ & Hle & _); [by left|].
    specialize (Hle Hb).
    destruct (body_schedule s s1) as (H1 & _); [by left|]. lia.
  - destruct (body_schedule s s1) as (H1 & _).
    { right. split; [done|]. intros [H0 He]. destruct Hno; [congruence|lia]. }
    eexists. split; [done|]. cbn beta iota. split; [lia|].
    rewrite (body_pass_steps s s1).
    2:{ right. split; [done|]. intros [H0 He]. destruct Hno; [congruence|lia]. }
    f_equal.
  - eexists. split; [done|]. cbn beta iota.
    rewrite (body_raised_iter _ _ _ Hb). lia.
  - destruct (body_schedule s s1) as (H1 & Hle & _); [by left|].
    specialize (Hle Hb).
    destruct (IH s1) as (f & Hrun & Hf); [destruct Hno; [by left|right; lia]|lia|].
    exists f. split; [exact Hrun|].
    destruct f as [s'|e s']; [|lia].
    destruct Hf as [Hi Hs]. split; [lia|].
    rewrite Hs, (body_pass_steps s s1) by by left.
    rewrite <- app_assoc. f_equal.
    rewrite (seqZ_cons (iter_num s)) by lia. cbn [app]. f_equal.
    f_equal; lia.
  - destruct (body_schedule s s1) as (H1 & _ & Hgt & _).
    { right. split; [done|]. intros [H0 He]. destruct Hno; [congruence|lia]. }
    specialize (Hgt Hb). lia.
  - eexists. split; [done|]. cbn beta iota.
    rewrite (body_raised_iter _ _ _ Hb). lia.
Qed.

(** X13. The loop ends.  From iteration [iter_num], 0 for a new run
    and the checkpoint's for a resumed one, without [eval_only] at
    iteration 0, the loop is left within the passes for the iterations
    [iter_num, ..., max_iters]: by an exception raised in one of them,
    or, when none raises, by the [max_iters] test after one pass through
    the update ([scaler.step(optimizer)]) for each of them, [max_iters +
    1] for a new run.  The test comes after the update, so a run resumed
    beyond [max_iters] still makes one update.  For every update
    [gradient_accumulation_steps] batches were read. *)
Theorem training_loop_exit (s : state T) (extra : nat) :
  eval_only cfg = false ∨ 0 < iter_num s →
  let last := Z.max (iter_num s) (max_iters cfg) in
  let updates := Z.to_nat (last - iter_num s + 1) in
  ∃ f,
    while_true T cfg (updates + extra) s = Some f ∧
    match f with
    | Crashed _ s' => iter_num s ≤ iter_num s' ≤ last
    | Exited s' =>
        iter_num s' = last + 1 ∧
        steps_of (trace s')
        = steps_of (trace s) ++ seqZ (iter_num s) (Z.of_nat updates) ∧
        batch_index s' = (batch_index s + updates * Z.to_nat gas)%nat ∧
        forwards_of (trace s')
        = forwards_of (trace s) ++ seq (batch_index s) (updates * Z.to_nat gas)
    end.
Proof.
  intros Hno last updates.
  destruct (while_true_ends (Z.to_nat (last - iter_num s)) s extra Hno)
    as (f & Hrun & Hf); [lia|].
  replace (S (Z.to_nat (last - iter_num s))) with updates in Hrun by lia.
  exists f. split; [exact Hrun|].
  destruct f as [s'|e s']; [|lia].
  destruct Hf as [Hi Hs].
  replace (Z.of_nat (Z.to_nat (last - iter_num s)) + 1)
    with (Z.of_nat updates) in Hs by lia.
  split; [lia|]. split; [exact Hs|].
  destruct (while_true_preserves T cfg (batches_in_order T) _ s _
              (body_batches_in_order T cfg) Hrun) as (n & Hn & Hfw).
  destruct (while_true_preserves T cfg (batches_per_step T cfg) _ s _
              (body_batches_per_step T cfg) Hrun) as (m & Hm & Hbi).
  cbn [final_state] in *.
  assert (m = updates) as ->.
  { rewrite Hs, length_app, length_seqZ in Hm. lia. }
  assert (n = (updates * Z.to_nat gas)%nat) as -> by lia.
  split; [exact Hbi|exact Hfw].
Qed.
End MoreInvariants.

(** *** The short run *)

(** With [config] bound no iteration of the short run can raise, and
    neither can one on a process that is not the master. *)
Lemma short_run_safe (st : ddp_setup) (keys : list string) (it : Z) :
  safe_iteration (short_run st) (Some keys) it.
Proof.
  split; [discriminate|]. split; [discriminate|].
  split; [right; left; discriminate|]. left. by eexists.
Qed.

Lemma short_run_safe_second (it : Z) :
  safe_iteration (short_run second_of_two) None it.
Proof.
  split; [discriminate|]. split; [discriminate|].
  split; [right; left; discriminate|]. right. left.
  unfold evaluates. apply andb_false_r.
Qed.

Lemma batches_read_in_order_witness :
  let cfg := short_run single_process in
  let s := configured_state least_squares cfg [] [Qc_of_Z 3] 0%nat in
  ∃ f, while_true least_squares cfg 5 s = Some f ∧
       forwards_of (trace (final_state f)) = seq 0 (batch_index (final_state f)).
Proof.
  intros cfg s.
  destruct (training_loop_terminates least_squares cfg s 1) as (s' & Hrun & _);
    [cbn; lia | cbn; lia | reflexivity | reflexivity
    | intros it _; apply short_run_safe |].
  exists (Exited s'). split; [exact Hrun|].
  destruct (batches_read_in_order least_squares cfg _ s _ Hrun) as (Hf & _).
  rewrite Hf. cbn [trace batch_index s configured_state app final_state].
  by rewrite Nat.sub_0_r.
Defined.

Lemma non_master_is_silent_witness :
  let cfg := short_run second_of_two in
  let s := initial_state least_squares cfg [Qc_of_Z 3] 0%nat in
  master_process (setup cfg) = false ∧
  ∃ f, while_true least_squares cfg 5 s = Some f ∧
       evals_of (trace (final_state f)) = [] ∧
       logs_of (trace (final_state f)) = [].
Proof.
  intros cfg s. split; [reflexivity|].
  destruct (training_loop_terminates least_squares cfg s 1) as (s' & Hrun & _);
    [cbn; lia | cbn; lia | reflexivity | reflexivity
    | intros it _; apply short_run_safe_second |].
  exists (Exited s'). split; [exact Hrun|].
  destruct (non_master_is_silent least_squares cfg _ s _ eq_refl Hrun)
    as (He & Hl & _).
  split; [exact He|exact Hl].
Defined.

Lemma evaluation_schedule_witness :
  let cfg := short_run single_process in
  let s := configured_state least_squares cfg [] [Qc_of_Z 3] 0%nat in
  ∃ s', while_true least_squares cfg 4 s = Some (Exited s') ∧
        evals_of (trace s') = [0; 2] ∧ logs_of (trace s') = [0; 1; 2; 3].
Proof.
  intros cfg s.
  destruct (training_loop_terminates least_squares cfg s 0) as (s' & Hrun & _);
    [cbn; lia | cbn; lia | reflexivity | reflexivity
    | intros it _; apply short_run_safe |].
  exists s'. split; [exact Hrun|].
  pose proof (evaluation_schedule least_squares cfg _ s s' (or_introl eq_refl) Hrun)
    as (_ & _ & Hend & Hsched).
  cbn zeta in Hsched. destruct Hsched as [He Hl].
  rewrite He, Hl, Hend by (cbn; lia). split; reflexivity.
Defined.

Lemma zero_eval_interval_raises_witness :
  let cfg := with_intervals 0 1 notebook_config in
  let s := initial_state least_squares cfg [Qc_of_Z 3] 0%nat in
  ∃ s', while_true least_squares cfg 1 s = Some (Crashed ZeroDivisionError s') ∧
        trace s' = [].
Proof.
  intros cfg s.
  destruct (zero_eval_interval_raises least_squares cfg 0 s)
    as (s' & Hrun & Ht & _);
    [reflexivity | cbn; lia | right; left; discriminate |].
  exists s'. split; [exact Hrun|exact Ht].
Defined.

Lemma zero_log_interval_raises_witness :
  let cfg := with_intervals 2000 0 notebook_config in
  let s := initial_state least_squares cfg [Qc_of_Z 3] 0%nat in
  ∃ s', while_true least_squares cfg 1 s = Some (Crashed ZeroDivisionError s') ∧
        steps_of (trace s') = [0] ∧ iter_num s' = 0.
Proof.
  intros cfg s.
  destruct (zero_log_interval_raises least_squares cfg 0 s)
    as (s' & Hrun & Hs & _ & _ & Hi);
    [reflexivity | discriminate | cbn; lia | right; left; discriminate
    | right; right; cbn; lia | intros [_ ?]; discriminate |].
  exists s'. split; [exact Hrun|]. split; [exact Hs|exact Hi].
Defined.

Lemma training_loop_exit_witness :
  let cfg := cell3 3 false single_process in
  let s := initial_state least_squares cfg [Qc_of_Z 3] 0%nat in
  ∃ s', while_true least_squares cfg 4 s = Some (Exited s') ∧
        iter_num s' = 4 ∧ steps_of (trace s') = [0; 1; 2; 3] ∧
        batch_index s' = 16%nat.
Proof.
  intros cfg s.
  destruct (training_loop_exit least_squares cfg s 0) as (f & Hrun & Hf);
    [by left|].
  destruct (short_run_terminates least_squares [Qc_of_Z 3] 0%nat 3 0)
    as (s' & Hrun' & _); [lia | lia |].
  change (while_true least_squares cfg 4 s = Some f) in Hrun.
  change (while_true least_squares cfg 4 s = Some (Exited s')) in Hrun'.
  rewrite Hrun' in Hrun. injection Hrun as <-.
  destruct Hf as (Hi & Hs & Hb & _).
  exists s'. split; [exact Hrun'|]. split; [exact Hi|].
  split; [exact Hs|exact Hb].
Defined.

Section OneStep.
Context (T : Torch) (cfg : config).

Local Abbreviation gas := (gradient_accumulation_steps (setup cfg)).



End OneStep.


Section Gradients.
Context (T : Torch) (cfg : config).

(** X16. [optimizer.zero_grad(set_to_none=True)]: when the first
    iteration of a run finds the gradient buffers cleared, so does every
    later one, and each accumulates from nothing. *)
Theorem gradients_cleared_between_iterations (s s' : state T) :
  rtc (iteration T cfg) s s' → grad s = None → grad s' = None.
Proof.
  intros Hrun. induction Hrun as [|s s1 s' Hstep _ IH]; [done|].
  intros _. apply IH. unfold iteration in Hstep.
  by apply (body_clears_grad T cfg s s1).
Qed.
End Gradients.

Lemma gradients_cleared_between_iterations_witness :
  let cfg := short_run single_process in
  let s := initial_state least_squares cfg [Qc_of_Z 3] 0%nat in
  ∃ s', rtc (iteration least_squares cfg) s s' ∧ iter_num s' = 1 ∧ grad s' = None.
Proof.
  intros cfg s.
  destruct (body_safe least_squares cfg s) as (s' & Hb & Hi & _);
    [cbn; lia | cbn; lia | | intros [_ ?]; discriminate |].
  { split; [discriminate|]. split; [discriminate|].
    split; [right; left; discriminate|]. right. right. cbn. lia. }
  rewrite bool_decide_false in Hb by (cbn; lia).
  assert (Hrun : rtc (iteration least_squares cfg) s s') by by apply rtc_once.
  exists s'. split; [exact Hrun|]. split; [exact Hi|].
  apply (gradients_cleared_between_iterations least_squares cfg s s' Hrun eq_refl).
Defined.

(** ** Cell 9: resuming from a checkpoint *)

Section ModelArgs.
Context {V : Type} (checkpoint_model_args : gmap string V).

Local Abbreviation force_step :=
  (λ (model_args : gmap string V) (k : string),
     v ← py_getitem checkpoint_model_args k; Ok (<[k := v]> model_args)).

(** The loop over keys that the checkpoint all holds. *)
Lemma force_loop_ok (ks : list string) (model_args : gmap string V) :
  (∀ k, k ∈ ks → is_Some (checkpoint_model_args !! k)) →
  ∃ m, for_loop force_step model_args ks = Ok m ∧
       ∀ k, m !! k = if decide (k ∈ ks) then checkpoint_model_args !! k
                     else model_args !! k.
Proof.
  revert model_args. induction ks as [|k0 ks IH]; intros model_args Hall.
  { exists model_args. split; [done|]. intros k. by rewrite decide_False by set_solver. }
  destruct (Hall k0) as [v Hv]; [set_solver|].
  destruct (IH (<[k0 := v]> model_args)) as (m & Hm & Hlook); [set_solver|].
  exists m. split.
  { cbn [for_loop]. unfold py_getitem. rewrite Hv. exact Hm. }
  intros k. rewrite Hlook.
  destruct (decide (k ∈ ks)) as [Hin|Hin].
  { by rewrite decide_True by set_solver. }
  destruct (decide (k = k0)) as [->|Hne].
  - rewrite decide_True by set_solver. by rewrite lookup_insert_eq.
  - rewrite decide_False by (intros [?|?]%elem_of_cons; done).
    by rewrite lookup_insert_ne.
Qed.

(** The loop stops at the first key the checkpoint lacks. *)
Lemma force_loop_missing (pre post : list string) (k : string)
    (model_args : gmap string V) :
  (∀ k', k' ∈ pre → is_Some (checkpoint_model_args !! k')) →
  checkpoint_model_args !! k = None →
  for_loop force_step model_args (pre ++ k :: post) = Raise (KeyError k).
Proof.
  revert model_args. induction pre as [|k0 pre IH]; intros model_args Hall Hk.
  { cbn. unfold py_getitem. by rewrite Hk. }
  destruct (Hall k0) as [v Hv]; [set_solver|].
  cbn [app for_loop]. unfold py_getitem. rewrite Hv. cbn [mbind result_bind].
  apply (IH (<[k0 := v]> model_args)); [|done]. intros k' Hk'. apply Hall. set_solver.
Qed.

(** X17. Resuming takes the seven architecture keys from the
    checkpoint: when the checkpoint holds them all, [model_args] ends up
    with the checkpoint's value for each of them and keeps its own value
    for every other key, [dropout] among them. *)
Theorem force_model_args_spec (model_args : gmap string V) :
  (∀ k, k ∈ forced_keys → is_Some (checkpoint_model_args !! k)) →
  ∃ m,
    force_model_args model_args checkpoint_model_args = Ok m ∧
    (∀ k, k ∈ forced_keys → m !! k = checkpoint_model_args !! k) ∧
    (∀ k, k ∉ forced_keys → m !! k = model_args !! k) ∧
    m !! "dropout" = model_args !! "dropout".
Proof.
  intros Hall. unfold force_model_args.
  destruct (force_loop_ok forced_keys model_args Hall) as (m & Hm & Hlook).
  exists m. split; [exact Hm|]. split; [|split].
  - intros k Hk. by rewrite Hlook, decide_True.
  - intros k Hk. by rewrite Hlook, decide_False.
  - rewrite Hlook, decide_False; [done|].
    unfold forced_keys. rewrite !elem_of_cons, elem_of_nil.
    intros [?|[?|[?|[?|[?|[?|[?|[]]]]]]]]; discriminate.
Qed.

(** X18. A checkpoint that lacks one of the seven keys stops cell 9
    with [KeyError] for the first such key in the order of the loop, and
    the loop runs through exactly when none is missing. *)
Theorem force_model_args_missing (model_args : gmap string V) :
  (∀ pre k post,
     forced_keys = pre ++ k :: post →
     (∀ k', k' ∈ pre → is_Some (checkpoint_model_args !! k')) →
     checkpoint_model_args !! k = None →
     force_model_args model_args checkpoint_model_args = Raise (KeyError k)) ∧
  ((∃ m, force_model_args model_args checkpoint_model_args = Ok m) ↔
   ∀ k, k ∈ forced_keys → is_Some (checkpoint_model_args !! k)).
Proof.
  assert (Hmiss : ∀ pre k post,
     forced_keys = pre ++ k :: post →
     (∀ k', k' ∈ pre → is_Some (checkpoint_model_args !! k')) →
     checkpoint_model_args !! k = None →
     force_model_args model_args checkpoint_model_args = Raise (KeyError k)).
  { intros pre k post Heq Hall Hk. unfold force_model_args. rewrite Heq.
    by apply force_loop_missing. }
  split; [exact Hmiss|]. split.
  - intros [m Hm].
    assert (Hpre : ∀ pre post, forced_keys = pre ++ post →
              ∀ k, k ∈ pre → is_Some (checkpoint_model_args !! k)).
    { intros pre. induction pre as [|k0 pre IH] using rev_ind; intros post Heq k Hk.
      { by apply elem_of_nil in Hk. }
      rewrite <- app_assoc in Heq. cbn in Heq.
      apply elem_of_app in Hk as [Hk|Hk]; [by apply (IH (k0 :: post))|].
      apply list_elem_of_singleton in Hk as ->.
      destruct (checkpoint_model_args !! k0) as [v|] eqn:Hk0; [by eexists|].
      rewrite (Hmiss pre k0 post Heq (IH (k0 :: post) Heq) Hk0) in Hm. discriminate. }
    apply (Hpre forced_keys []). by rewrite app_nil_r.
  - intros Hall. destruct (force_loop_ok forced_keys model_args Hall) as (m & Hm & _).
    by exists m.
Qed.
End ModelArgs.

Lemma force_model_args_spec_witness :
  let model_args : gmap string Z :=
    {[ "dim" := 64; "n_layers" := 5; "n_heads" := 8; "n_kv_heads" := 4;
       "vocab_size" := 32000; "multiple_of" := 32; "max_seq_len" := 30;
       "dropout" := 1 ]} in
  let checkpoint_model_args : gmap string Z :=
    {[ "dim" := 288; "n_layers" := 6; "n_heads" := 6; "n_kv_heads" := 6;
       "vocab_size" := 32000; "multiple_of" := 32; "max_seq_len" := 256;
       "dropout" := 0 ]} in
  ∃ m, force_model_args model_args checkpoint_model_args = Ok m ∧
       m !! "dim" = Some 288 ∧ m !! "dropout" = Some 1.
Proof.
  intros model_args checkpoint_model_args.
  destruct (force_model_args_spec checkpoint_model_args model_args)
    as (m & Hm & Hf & _ & Hd).
  { intros k Hk. unfold forced_keys in Hk.
    rewrite !elem_of_cons, elem_of_nil in Hk.
    destruct Hk as [->|[->|[->|[->|[->|[->|[->|[]]]]]]]]; by eexists. }
  exists m. split; [exact Hm|]. split.
  - rewrite (Hf "dim"); [reflexivity|]. unfold forced_keys. set_solver.
  - rewrite Hd. reflexivity.
Defined.

Lemma force_model_args_missing_witness :
  force_model_args (V := Z) {[ "dim" := 64 ]} {[ "dim" := 288 ]}
  = Raise (KeyError "n_layers").
Proof.
  apply (proj1 (force_model_args_missing (V := Z) {[ "dim" := 288 ]} {[ "dim" := 64 ]})
           ["dim"] "n_layers"
           ["n_heads"; "n_kv_heads"; "vocab_size"; "multiple_of"; "max_seq_len"]).
  - reflexivity.
  - intros k Hk. apply list_elem_of_singleton in Hk as ->. by eexists.
  - reflexivity.
Defined.

(** *** Strings *)

Lemma startswith_app (p k : string) : startswith (p +:+ k) p = true.
Proof.
  unfold startswith. induction p as [|a p IH].
  - by destruct k.
  - change (String a p +:+ k) with (String a (p +:+ k)).
    cbn [String.prefix]. destruct (Ascii.ascii_dec a a) as [_|Hne]; [exact IH|by destruct Hne].
Qed.

Lemma str_from_app (p k : string) : str_from (String.length p) (p +:+ k) = k.
Proof.
  induction p as [|a p IH].
  - by destruct k.
  - change (String a p +:+ k) with (String a (p +:+ k)). cbn [String.length str_from]. exact IH.
Qed.

Lemma startswith_split (k p : string) :
  startswith k p = true → k = p +:+ str_from (String.length p) k.
Proof.
  unfold startswith. revert k. induction p as [|a p IH]; intros k.
  - by destruct k.
  - destruct k as [|b k]; [done|]. cbn [String.prefix String.length str_from].
    destruct (Ascii.ascii_dec a b) as [->|]; [|done].
    intros Hp. change (String b p +:+ str_from (String.length p) k) with (String b (p +:+ str_from (String.length p) k)). f_equal. by apply IH.
Qed.

Lemma new_key_inj (k1 k2 : string) :
  startswith k1 unwanted_prefix = true → startswith k2 unwanted_prefix = true →
  new_key k1 = new_key k2 → k1 = k2.
Proof.
  intros H1 H2 Heq. rewrite (startswith_split _ _ H1), (startswith_split _ _ H2).
  unfold new_key in Heq. by rewrite Heq.
Qed.

(** *** Dicts *)

Section Dicts.
Context {V : Type}.
Implicit Types (d : pydict V) (k : string) (v : V).

Lemma dict_pop_at d1 d2 k v :
  k ∉ d1.*1 → dict_pop k (d1 ++ (k, v) :: d2) = Ok (v, d1 ++ d2).
Proof.
  induction d1 as [|[k' v'] d1 IH]; intros Hk; cbn.
  - by rewrite decide_True.
  - cbn in Hk. apply not_elem_of_cons in Hk as [Hne Hk].
    rewrite decide_False by (by intros ->). by rewrite IH.
Qed.

Lemma dict_pop_ok d k :
  k ∈ d.*1 → ∃ d1 v d2, d = d1 ++ (k, v) :: d2 ∧ k ∉ d1.*1.
Proof.
  induction d as [|[k' v'] d IH]; intros Hk; [by apply elem_of_nil in Hk|].
  destruct (decide (k' = k)) as [->|Hne].
  { exists [], v', d. split; [done|]. apply not_elem_of_nil. }
  cbn in Hk. apply elem_of_cons in Hk as [->|Hk]; [done|].
  destruct (IH Hk) as (d1 & v & d2 & -> & Hd1).
  exists ((k', v') :: d1), v, d2. split; [done|]. cbn.
  apply not_elem_of_cons. split; [by intros ->|done].
Qed.

Lemma dict_setitem_new d k v : k ∉ d.*1 → dict_setitem k v d = d ++ [(k, v)].
Proof.
  induction d as [|[k' v'] d IH]; intros Hk; cbn; [done|].
  cbn in Hk. apply not_elem_of_cons in Hk as [Hne Hk].
  rewrite decide_False by (by intros ->). by rewrite IH.
Qed.

Lemma dict_setitem_keys d k v :
  (dict_setitem k v d).*1 = if decide (k ∈ d.*1) then d.*1 else d.*1 ++ [k].
Proof.
  induction d as [|[k' v'] d IH]; cbn; [done|].
  destruct (decide (k' = k)) as [->|Hne]; cbn.
  { rewrite decide_True; [done|]. apply elem_of_cons. by left. }
  rewrite IH. destruct (decide (k ∈ d.*1)) as [Hin|Hin].
  - rewrite decide_True; [done|]. apply elem_of_cons. by right.
  - rewrite decide_False; [done|]. apply not_elem_of_cons. split; [by intros ->|done].
Qed.

(** One pass through the body of the loop, on a key the dict holds. *)
Lemma strip_prefix_ok d k v :
  NoDup d.*1 → k ∈ d.*1 →
  ∃ d', strip_prefix d (k, v) = Ok d' ∧ NoDup d'.*1 ∧
        (length d' ≤ length d)%nat ∧
        ∀ k', k' ∈ d.*1 → k' ≠ k → k' ∈ d'.*1.
Proof.
  intros Hnd Hk. unfold strip_prefix. cbn [fst].
  destruct (startswith k unwanted_prefix); [|by exists d].
  destruct (dict_pop_ok d k Hk) as (d1 & v0 & d2 & -> & Hd1).
  rewrite dict_pop_at by done. cbn [mbind result_bind].
  eexists. split; [reflexivity|].
  rewrite fmap_app in Hnd. cbn in Hnd.
  apply NoDup_app in Hnd as (N1 & N12 & N2). apply NoDup_cons in N2 as [Nk N2].
  assert (Hnd' : NoDup (d1 ++ d2).*1).
  { rewrite fmap_app. apply NoDup_app. split; [done|]. split; [|done].
    intros x Hx Hx'. apply (N12 x Hx). apply elem_of_cons. by right. }
  rewrite dict_setitem_keys. split; [|split].
  - destruct (decide _); [done|].
    apply NoDup_app. split; [done|]. split; [|apply NoDup_singleton].
    intros x Hx Hx'. apply list_elem_of_singleton in Hx' as ->. done.
  - assert (length (dict_setitem (new_key k) v0 (d1 ++ d2)).*1
            ≤ S (length (d1 ++ d2)))%nat as Hlen.
    { rewrite dict_setitem_keys. destruct (decide _).
      - rewrite length_fmap. lia.
      - rewrite length_app, length_fmap. cbn. lia. }
    rewrite length_fmap in Hlen. rewrite !length_app in *. cbn. lia.
  - intros k' Hk' Hne. rewrite fmap_app in Hk'. cbn in Hk'.
    assert (Hin : k' ∈ (d1 ++ d2).*1).
    { rewrite fmap_app. apply elem_of_app in Hk' as [?|Hk']; apply elem_of_app;
        [by left|]. apply elem_of_cons in Hk' as [?|?]; [done|by right]. }
    destruct (decide _); [done|]. apply elem_of_app. by left.
Qed.

(** The loop on a dict that holds every key it is about to visit. *)
Lemma strip_loop_ok (rest : pydict V) d :
  NoDup rest.*1 → NoDup d.*1 → (∀ k, k ∈ rest.*1 → k ∈ d.*1) →
  ∃ d', for_loop strip_prefix d rest = Ok d' ∧ NoDup d'.*1 ∧
        (length d' ≤ length d)%nat.
Proof.
  revert d. induction rest as [|[k v] rest IH]; intros d Hr Hd Hsub.
  { exists d. by repeat split. }
  cbn in Hr. apply NoDup_cons in Hr as [Hk Hr].
  destruct (strip_prefix_ok d k v Hd) as (d1 & H1 & N1 & L1 & K1).
  { apply Hsub. cbn. apply elem_of_cons. by left. }
  destruct (IH d1 Hr N1) as (d' & H' & N' & L').
  { intros k' Hk'. apply K1; [apply Hsub; cbn; apply elem_of_cons; by right|].
    intros ->. done. }
  exists d'. cbn [for_loop]. rewrite H1. cbn [mbind result_bind].
  split; [done|]. split; [done|]. lia.
Qed.

(** X19. The loop that strips [_orig_mod.] never raises: every
    [state_dict.pop(k)] finds its key, whatever the keys are, since the
    keys it visits are those of the snapshot and only the visited one is
    taken out.  The result has no key twice and is no longer than the
    dict was. *)
Theorem fix_state_dict_never_raises (state_dict : pydict V) :
  NoDup state_dict.*1 →
  ∃ d', fix_state_dict state_dict = Ok d' ∧ NoDup d'.*1 ∧
        (length d' ≤ length state_dict)%nat.
Proof.
  intros Hnd. unfold fix_state_dict.
  destruct (strip_loop_ok state_dict state_dict Hnd Hnd) as (d' & Hd' & N' & L');
    [done|].
  by exists d'.
Qed.

Local Abbreviation kept d :=
  (filter (λ kv : string * V, startswith kv.1 unwanted_prefix ≠ true) d).
Local Abbreviation moved d :=
  ((λ kv : string * V, (new_key kv.1, kv.2))
     <$> filter (λ kv : string * V, startswith kv.1 unwanted_prefix = true) d).

(** One pass through the body: a key with the prefix is taken out and
    comes back at the end under its new name, if that name is free. *)
Lemma strip_prefix_moves (d1 d2 : pydict V) k v :
  startswith k unwanted_prefix = true →
  k ∉ d1.*1 → new_key k ∉ (d1 ++ d2).*1 →
  strip_prefix (d1 ++ (k, v) :: d2) (k, v) = Ok (d1 ++ d2 ++ [(new_key k, v)]).
Proof.
  intros Hp Hk Hnew. unfold strip_prefix. cbn [fst]. rewrite Hp.
  rewrite dict_pop_at by done. cbn [mbind result_bind].
  by rewrite dict_setitem_new, <- app_assoc.
Qed.

Lemma strip_prefix_skips d k v :
  startswith k unwanted_prefix = false → strip_prefix d (k, v) = Ok d.
Proof. intros Hp. unfold strip_prefix. cbn [fst]. by rewrite Hp. Qed.

Lemma kept_keys d k : k ∈ (kept d).*1 → k ∈ d.*1.
Proof.
  intros Hk. apply list_elem_of_fmap in Hk as ([k' v'] & -> & Hin).
  apply list_elem_of_filter in Hin as [_ Hin].
  apply list_elem_of_fmap. by exists (k', v').
Qed.

(** The loop after the items [d1] of [d1 ++ d2], when no new name is a
    key of the dict. *)
Lemma strip_loop_spec (d1 d2 : pydict V) :
  NoDup (d1 ++ d2).*1 →
  (∀ k, k ∈ (d1 ++ d2).*1 → startswith k unwanted_prefix = true →
        new_key k ∉ (d1 ++ d2).*1) →
  for_loop strip_prefix (kept d1 ++ d2 ++ moved d1) d2
  = Ok (kept (d1 ++ d2) ++ moved (d1 ++ d2)).
Proof.
  revert d1. induction d2 as [|[k v] d2 IH]; intros d1 Hnd Hclean.
  { cbn. by rewrite !app_nil_r. }
  assert (Hnext : (d1 ++ [(k, v)]) ++ d2 = d1 ++ (k, v) :: d2)
    by by rewrite <- app_assoc.
  specialize (IH (d1 ++ [(k, v)])). rewrite Hnext in IH.
  specialize (IH Hnd Hclean).
  assert (Hk1 : k ∉ d1.*1).
  { rewrite fmap_app in Hnd. cbn in Hnd.
    apply NoDup_app in Hnd as (_ & N12 & _). intros Hk. apply (N12 k Hk).
    apply elem_of_cons. by left. }
  assert (Hkd : k ∈ (d1 ++ (k, v) :: d2).*1).
  { rewrite fmap_app. apply elem_of_app. right. apply elem_of_cons. by left. }
  cbn [for_loop].
  change (((k, v) :: d2) ++ moved d1) with ((k, v) :: (d2 ++ moved d1)).
  destruct (startswith k unwanted_prefix) eqn:Hp.
  - rewrite strip_prefix_moves; [|done|by intros Hk%kept_keys|].
    2:{ rewrite !fmap_app. intros Hin.
        apply elem_of_app in Hin as [Hin|Hin]; [|apply elem_of_app in Hin as [Hin|Hin]].
        - apply (Hclean k Hkd Hp). apply kept_keys in Hin.
          rewrite fmap_app. apply elem_of_app. by left.
        - apply (Hclean k Hkd Hp).
          rewrite fmap_app. apply elem_of_app. right. apply elem_of_cons. by right.
        - apply list_elem_of_fmap in Hin as ([k' v'] & Heq & Hin). cbn in Heq.
          apply list_elem_of_fmap in Hin as ([k'' v''] & [= -> ->] & Hin).
          apply list_elem_of_filter in Hin as [Hp' Hin]. cbn in Hp'.
          apply new_key_inj in Heq; [|done..]. subst k''.
          apply Hk1. apply list_elem_of_fmap. by exists (k, v''). }
    cbn [mbind result_bind]. rewrite <- IH. f_equal.
    rewrite !filter_app.
    rewrite (filter_cons_False (λ kv : string * V, startswith kv.1 unwanted_prefix ≠ true)
               (k, v)) by (intros H; by apply H).
    rewrite (filter_cons_True (λ kv : string * V, startswith kv.1 unwanted_prefix = true)
               (k, v)) by done.
    rewrite !filter_nil, fmap_app. cbn [fmap list_fmap fst snd].
    by rewrite !app_nil_r, <- !app_assoc.
  - rewrite strip_prefix_skips by done.
    cbn [mbind result_bind]. rewrite <- IH. f_equal.
    rewrite !filter_app.
    rewrite (filter_cons_True (λ kv : string * V, startswith kv.1 unwanted_prefix ≠ true)
               (k, v)) by (cbn [fst]; by rewrite Hp).
    rewrite (filter_cons_False (λ kv : string * V, startswith kv.1 unwanted_prefix = true)
               (k, v)) by (cbn [fst]; by rewrite Hp).
    rewrite !filter_nil, !app_nil_r, <- !app_assoc. done.
Qed.

(** X20. When no key, stripped of the prefix, is the name of another
    key, the repair gives every key with the prefix its stripped name and
    leaves the values alone; the keys without the prefix stay where they
    are, and the renamed ones follow them in their old order. *)
Theorem fix_state_dict_spec (state_dict : pydict V) :
  NoDup state_dict.*1 →
  (∀ k, k ∈ state_dict.*1 → startswith k unwanted_prefix = true →
        new_key k ∉ state_dict.*1) →
  fix_state_dict state_dict
  = Ok (filter (λ kv, startswith kv.1 unwanted_prefix ≠ true) state_dict
        ++ ((λ kv, (new_key kv.1, kv.2))
              <$> filter (λ kv, startswith kv.1 unwanted_prefix = true) state_dict)).
Proof.
  intros Hnd Hclean. unfold fix_state_dict.
  pose proof (strip_loop_spec [] state_dict Hnd Hclean) as H.
  cbn in H. rewrite app_nil_r in H. exact H.
Qed.

Lemma filter_all {A : Type} (P : A → Prop) `{∀ x, Decision (P x)} (l : list A) :
  (∀ x, x ∈ l → P x) → filter P l = l.
Proof.
  induction l as [|a l IH]; intros Hall; [done|].
  rewrite filter_cons_True by (apply Hall; set_solver).
  f_equal. apply IH. intros x Hx. apply Hall. set_solver.
Qed.

Lemma filter_none {A : Type} (P : A → Prop) `{∀ x, Decision (P x)} (l : list A) :
  (∀ x, x ∈ l → ¬ P x) → filter P l = [].
Proof.
  induction l as [|a l IH]; intros Hall; [done|].
  rewrite filter_cons_False by (apply Hall; set_solver).
  apply IH. intros x Hx. apply Hall. set_solver.
Qed.

(** X21. The round trip of the names: a dict none of whose keys
    starts with the prefix is left as it is, and the same dict with the
    prefix put before every key, as a compiled model names its
    parameters, is given back its own keys, values and order. *)
Theorem fix_state_dict_round_trip (state_dict : pydict V) :
  NoDup state_dict.*1 →
  (∀ k, k ∈ state_dict.*1 → startswith k unwanted_prefix = false) →
  fix_state_dict state_dict = Ok state_dict ∧
  fix_state_dict (compiled_names state_dict) = Ok state_dict.
Proof.
  intros Hnd Hnone. split.
  - pose proof (strip_loop_spec [] state_dict Hnd) as H.
    cbn in H. rewrite app_nil_r in H. unfold fix_state_dict. rewrite H.
    2:{ intros k Hk Hp. rewrite (Hnone k Hk) in Hp. discriminate. }
    rewrite filter_all, filter_none.
    + by rewrite app_nil_r.
    + intros [k v] Hin. cbn [fst]. rewrite (Hnone k); [done|].
      apply list_elem_of_fmap. by exists (k, v).
    + intros [k v] Hin. cbn [fst]. rewrite (Hnone k); [done|].
      apply list_elem_of_fmap. by exists (k, v).
  - assert (Hkeys : (compiled_names state_dict).*1
                    = String.append unwanted_prefix <$> state_dict.*1).
    { unfold compiled_names. rewrite <- !list_fmap_compose. done. }
    pose proof (strip_loop_spec [] (compiled_names state_dict)) as H.
    cbn in H. rewrite app_nil_r in H. unfold fix_state_dict. rewrite H.
    + rewrite filter_none, filter_all.
      * cbn [app]. unfold compiled_names. rewrite <- list_fmap_compose.
        rewrite <- (list_fmap_id state_dict) at 2. f_equal.
        apply list_fmap_ext. intros _ [k v] _. cbn [compose fst snd id].
        unfold new_key. by rewrite str_from_app.
      * intros [k v] Hin. cbn [fst].
        apply list_elem_of_fmap in Hin as ([k0 v0] & [= -> ->] & _).
        apply startswith_app.
      * intros [k v] Hin. cbn [fst].
        apply list_elem_of_fmap in Hin as ([k0 v0] & [= -> ->] & _).
        rewrite startswith_app. auto.
    + rewrite Hkeys. apply NoDup_fmap_2; [apply _|done].
    + rewrite Hkeys. intros k Hk _ Hin.
      apply list_elem_of_fmap in Hk as (k0 & -> & Hk0).
      unfold new_key in Hin. rewrite str_from_app in Hin.
      apply list_elem_of_fmap in Hin as (k1 & -> & _).
      pose proof (Hnone _ Hk0) as Hf. rewrite startswith_app in Hf. discriminate.
Qed.
(** The items after [d.pop(k)] and after [d[k] = v]. *)
Lemma dict_pop_entries d k v d' :
  NoDup d.*1 → dict_pop k d = Ok (v, d') →
  (k, v) ∈ d ∧ NoDup d'.*1 ∧ ∀ k' v', (k', v') ∈ d' ↔ k' ≠ k ∧ (k', v') ∈ d.
Proof.
  revert d'. induction d as [|[k0 v0] d IH]; intros d' Hnd; [done|].
  cbn in Hnd. apply NoDup_cons in Hnd as [Hk0 Hnd]. cbn [dict_pop].
  destruct (decide (k0 = k)) as [->|Hne].
  - intros [= -> ->]. split; [apply elem_of_cons; by left|]. split; [done|].
    intros k' v'. split.
    + intros Hin. split; [|apply elem_of_cons; by right].
      intros ->. apply Hk0. apply list_elem_of_fmap. by exists (k, v').
    + intros [Hne Hin]. apply elem_of_cons in Hin as [[= ? ?]|Hin]; done.
  - destruct (dict_pop k d) as [[v1 d1]|e] eqn:Hpop; [|done].
    cbn [mbind result_bind]. intros [= -> <-].
    destruct (IH d1 Hnd eq_refl) as (Hin & Hnd1 & Hent).
    split; [apply elem_of_cons; by right|]. split.
    + cbn. apply NoDup_cons. split; [|done]. intros Hk.
      apply list_elem_of_fmap in Hk as ([k' v'] & -> & Hk).
      apply Hent in Hk as [_ Hk]. apply Hk0.
      apply list_elem_of_fmap. by exists (k', v').
    + intros k' v'. rewrite !elem_of_cons, Hent. split.
      * intros [[= -> ->]|[? ?]]; [by split; [|left]|by split; [|right]].
      * intros [? [?|?]]; [by left|by right].
Qed.

Lemma dict_setitem_entries d k v :
  NoDup d.*1 →
  NoDup (dict_setitem k v d).*1 ∧
  ∀ k' v', (k', v') ∈ dict_setitem k v d ↔
           (k' = k ∧ v' = v) ∨ (k' ≠ k ∧ (k', v') ∈ d).
Proof.
  intros Hnd. split.
  { rewrite dict_setitem_keys. destruct (decide _); [done|].
    apply NoDup_app. split; [done|]. split; [|apply NoDup_singleton].
    intros x Hx Hx'. apply list_elem_of_singleton in Hx' as ->. done. }
  induction d as [|[k0 v0] d IH]; intros k' v'; cbn [dict_setitem].
  { rewrite list_elem_of_singleton, elem_of_nil. split.
    - intros [= -> ->]. by left.
    - intros [[-> ->]|[_ []]]. done. }
  cbn in Hnd. apply NoDup_cons in Hnd as [Hk0 Hnd].
  destruct (decide (k0 = k)) as [->|Hne]; rewrite !elem_of_cons.
  - split.
    + intros [[= -> ->]|Hin]; [by left|]. right. split; [|by right].
      intros ->. apply Hk0. apply list_elem_of_fmap. by exists (k, v').
    + intros [[-> ->]|[Hne [[= ? ?]|Hin]]]; [by left|done|by right].
  - rewrite (IH Hnd). split.
    + intros [[= -> ->]|[[-> ->]|[? ?]]].
      * right. split; [done|by left].
      * by left.
      * right. split; [done|by right].
    + intros [[-> ->]|[? [[= -> ->]|?]]].
      * right. by left.
      * by left.
      * right. right. by split.
Qed.

Lemma dict_key_value d k v1 v2 :
  NoDup d.*1 → (k, v1) ∈ d → (k, v2) ∈ d → v1 = v2.
Proof.
  induction d as [|[k0 v0] d IH]; intros Hnd H1 H2; [by apply elem_of_nil in H1|].
  cbn in Hnd. apply NoDup_cons in Hnd as [Hk0 Hnd].
  assert (Hfst : ∀ v, (k0, v) ∈ d → False).
  { intros v Hin. apply Hk0. apply list_elem_of_fmap. by exists (k0, v). }
  apply elem_of_cons in H1 as [H1|H1]; apply elem_of_cons in H2 as [H2|H2].
  - congruence.
  - injection H1 as -> ->. by destruct (Hfst v2).
  - injection H2 as -> ->. by destruct (Hfst v1).
  - by apply IH.
Qed.

Lemma strip_prefix_pops (c1 c2 : pydict V) k v v1 :
  startswith k unwanted_prefix = true → k ∉ c1.*1 →
  strip_prefix (c1 ++ (k, v1) :: c2) (k, v)
  = Ok (dict_setitem (new_key k) v1 (c1 ++ c2)).
Proof.
  intros Hp Hk. unfold strip_prefix. cbn [fst]. rewrite Hp.
  by rewrite dict_pop_at.
Qed.

Lemma strip_loop_entries (d1 d2 cur d' : pydict V) :
  NoDup (d1 ++ d2).*1 →
  (∀ k, k ∈ (d1 ++ d2).*1 → startswith k unwanted_prefix = true →
        startswith (new_key k) unwanted_prefix = false) →
  NoDup cur.*1 →
  (∀ k v, (k, v) ∈ cur ↔ entries d1 d2 k v) →
  for_loop strip_prefix cur d2 = Ok d' →
  ∀ k v, (k, v) ∈ d' ↔ entries (d1 ++ d2) [] k v.
Proof.
  revert d1 cur. induction d2 as [|[k0 v0] d2 IH]; intros d1 cur Hnd Hone Hcur Hinv.
  { intros [= <-] k v. rewrite Hinv. unfold entries. rewrite !app_nil_r. done. }
  assert (Hnext : (d1 ++ [(k0, v0)]) ++ d2 = d1 ++ (k0, v0) :: d2)
    by by rewrite <- app_assoc.
  specialize (IH (d1 ++ [(k0, v0)])). rewrite Hnext in IH.
  assert (Hk1 : (k0 ∉ d1.*1) ∧ (k0 ∉ d2.*1)).
  { rewrite fmap_app in Hnd. cbn in Hnd.
    apply NoDup_app in Hnd as (_ & N12 & N2). apply NoDup_cons in N2 as [N2 _].
    split; [|done]. intros Hk. apply (N12 k0 Hk). apply elem_of_cons. by left. }
  destruct Hk1 as [Hk1 Hk2].
  assert (Hkd : k0 ∈ (d1 ++ (k0, v0) :: d2).*1).
  { rewrite fmap_app. apply elem_of_app. right. apply elem_of_cons. by left. }
  assert (Hfst : ∀ (l : pydict V) k v, (k, v) ∈ l → k ∈ l.*1).
  { intros l k v Hin. apply list_elem_of_fmap. by exists (k, v). }
  cbn [for_loop].
  destruct (startswith k0 unwanted_prefix) eqn:Hp0.
  - pose proof (Hone k0 Hkd Hp0) as Hnew.
    pose proof (startswith_split _ _ Hp0) as Hsplit. fold (new_key k0) in Hsplit.
    assert (Hin0 : (k0, v0) ∈ cur).
    { apply Hinv. left. split; [done|]. apply elem_of_cons. by left. }
    destruct (dict_pop_ok cur k0 (Hfst _ _ _ Hin0)) as (c1 & v1 & c2 & -> & Hc1).
    rewrite strip_prefix_pops by done. cbn [mbind result_bind].
    destruct (dict_pop_entries (c1 ++ (k0, v1) :: c2) k0 v1 (c1 ++ c2) Hcur)
      as (Hin1 & Hnd1 & Hent1); [by apply dict_pop_at|].
    assert (v1 = v0) as ->.
    { by apply (dict_key_value (c1 ++ (k0, v1) :: c2) k0). }
    destruct (dict_setitem_entries (c1 ++ c2) (new_key k0) v0 Hnd1) as [Hnd2 Hent2].
    apply (IH _ Hnd Hone Hnd2). intros k v. rewrite Hent2, Hent1, Hinv.
    unfold entries.
    assert (Hk : k = new_key k0 ↔ unwanted_prefix +:+ k = k0).
    { split; [intros ->; by rewrite <- Hsplit|].
      intros Heq. rewrite Hsplit in Heq. by apply (inj _) in Heq. }
    assert (Hpk : startswith (unwanted_prefix +:+ k) unwanted_prefix = true)
      by apply startswith_app.
    assert (Hd1 : ∀ v, (k0, v) ∈ d1 → False) by (intros v'; by intros ?%Hfst).
    assert (Hd2 : ∀ v, (k0, v) ∈ d2 → False) by (intros v'; by intros ?%Hfst).
    assert (Hdbl : ∀ v, (unwanted_prefix +:+ k0, v) ∈ d1 → False).
    { intros v' Hin. pose proof (Hone (unwanted_prefix +:+ k0)) as Hbad.
      unfold new_key in Hbad. rewrite str_from_app, Hp0 in Hbad.
      assert (true = false); [|done]. apply Hbad; [|apply startswith_app].
      rewrite fmap_app. apply elem_of_app. left. by apply (Hfst d1 _ v'). }
    rewrite fmap_app. cbn [fmap list_fmap fst].
    rewrite !elem_of_app, !elem_of_cons, !elem_of_nil.
    clear IH Hinv Hent1 Hent2 Hone Hnd Hcur Hnd1 Hnd2 Hin0 Hin1 Hkd Hnext Hfst Hc1.
    destruct (decide (k = new_key k0)) as [->|Hne].
    + rewrite Hnew. rewrite <- Hsplit. split.
      * intros [[_ ->]|[? _]]; [|done]. right. left. right. by left.
      * intros [[[=] _]|[[Hin|[[= ->]|[]]]|(_ & _ & Hnot)]].
        -- by destruct (Hd1 v).
        -- by left.
        -- exfalso. apply Hnot. right. by left.
    + assert (Hne1 : unwanted_prefix +:+ k ≠ k0) by (by intros ?%Hk).
      assert (E1 : (unwanted_prefix +:+ k, v) = (k0, v0) ↔ False)
        by (split; [by intros [= ? ?]|done]).
      assert (E2 : unwanted_prefix +:+ k = k0 ↔ False) by done.
      rewrite E1, E2.
      destruct (decide (k = k0)) as [->|Hne0].
      * rewrite Hp0. split; [by intros [[? _]|[_ [? _]]]|].
        intros [[_ ?]|[[?|[[]|[]]]|[? _]]]; [by destruct (Hd2 v)|by destruct (Hdbl v)|done].
      * assert (E3 : (k, v) = (k0, v0) ↔ False)
          by (split; [by intros [= ? ?]|done]).
        rewrite E3. clear Hk Hd1 Hd2 Hdbl Hsplit Hnew Hp0 Hk1 Hk2 Hpk E1 E2 E3.
        split; [|tauto]. intros [[? _]|[_ [_ ?]]]; [done|tauto].
  - rewrite strip_prefix_skips by done. cbn [mbind result_bind].
    apply (IH _ Hnd Hone Hcur). intros k v. rewrite Hinv. unfold entries.
    assert (Hpk : startswith (unwanted_prefix +:+ k) unwanted_prefix = true)
      by apply startswith_app.
    assert (Hne : unwanted_prefix +:+ k ≠ k0) by (intros Heq; congruence).
    rewrite fmap_app. cbn [fmap list_fmap fst].
    rewrite !elem_of_app, !elem_of_cons, !elem_of_nil.
    assert (Hd1 : ∀ v, (k0, v) ∈ d1 → False) by (intros v'; by intros ?%Hfst).
    assert (Hd2 : ∀ v, (k0, v) ∈ d2 → False) by (intros v'; by intros ?%Hfst).
    clear IH Hinv Hone Hnd Hcur Hkd Hnext Hfst.
    assert (E1 : (unwanted_prefix +:+ k, v) = (k0, v0) ↔ False)
      by (split; [by intros [= ? ?]|done]).
    assert (E2 : unwanted_prefix +:+ k = k0 ↔ False) by done.
    rewrite E1, E2.
    destruct (decide (k = k0)) as [->|Hne0].
    + rewrite Hp0. clear Hpk E1 E2 Hne. 
      assert (E4 : ∀ P : Prop, (true = false ∧ P) ↔ False) by (intros P; split; [by intros [? _]|done]).
      assert (E5 : false = true ↔ False) by done.
      rewrite E5. split.
      * intros [[[] _]|[?|(_ & ? & ?)]]; [by right; left; left|].
        right. right. split; [done|]. split; [tauto|tauto].
      * intros [[[] _]|[[?|[[]|[]]]|(_ & ? & ?)]]; [by right; left|].
        right. right. split; [done|]. split; tauto.
    + assert (E3 : (k, v) = (k0, v0) ↔ False)
        by (split; [by intros [= ? ?]|done]).
      rewrite E3. clear Hd1 Hd2 Hp0 Hk1 Hk2 Hpk E1 E2 E3 Hne. tauto.
Qed.

(** X22. With no key that carries the prefix twice, the repaired dict
    holds, under its stripped name, every item whose key had the prefix,
    and every other item but those whose key is such a stripped name:
    there the value that came with the prefix has replaced the other, and
    no key with the prefix is left. *)
Theorem fix_state_dict_entries (state_dict d' : pydict V) :
  NoDup state_dict.*1 →
  (∀ k, k ∈ state_dict.*1 → startswith k unwanted_prefix = true →
        startswith (new_key k) unwanted_prefix = false) →
  fix_state_dict state_dict = Ok d' →
  ∀ k v, (k, v) ∈ d' ↔
    (unwanted_prefix +:+ k, v) ∈ state_dict ∨
    (startswith k unwanted_prefix = false ∧ (k, v) ∈ state_dict ∧
     unwanted_prefix +:+ k ∉ state_dict.*1).
Proof.
  intros Hnd Hone Hfix k v.
  rewrite (strip_loop_entries [] state_dict state_dict d' Hnd Hone Hnd); [|..|done].
  - unfold entries. cbn [app]. rewrite app_nil_r, elem_of_nil. split.
    + intros [[_ []]|[?|?]]; [by left|by right].
    + intros [?|?]; [by right; left|by right; right].
  - intros k1 v1. unfold entries. cbn [app fmap list_fmap]. rewrite !elem_of_nil. split.
    + intros Hin. destruct (startswith k1 unwanted_prefix) eqn:Hp.
      * left. by split.
      * right. right. split; [done|]. split; [done|]. by intros [].
    + intros [[_ ?]|[[]|(_ & ? & _)]]; done.
Qed.
End Dicts.

Lemma fix_state_dict_never_raises_witness :
  ∃ d', fix_state_dict [("_orig_mod.w", 1); ("w", 2); ("_orig_mod._orig_mod.w", 3)]
        = Ok d' ∧ (length d' ≤ 3)%nat.
Proof.
  destruct (fix_state_dict_never_raises
              [("_orig_mod.w", 1); ("w", 2); ("_orig_mod._orig_mod.w", 3)])
    as (d' & Hd' & _ & Hl).
  { compute_done. }
  exists d'. split; [exact Hd'|exact Hl].
Defined.

Lemma fix_state_dict_spec_witness :
  fix_state_dict [("_orig_mod.tok_embeddings.weight", 1); ("freqs_cis", 2);
                  ("_orig_mod.norm.weight", 3)]
  = Ok [("freqs_cis", 2); ("tok_embeddings.weight", 1); ("norm.weight", 3)].
Proof.
  rewrite fix_state_dict_spec.
  - reflexivity.
  - compute_done.
  - intros k Hk Hp. cbn [fmap list_fmap fst] in Hk.
    repeat (apply elem_of_cons in Hk as [->|Hk]);
      [..|by apply elem_of_nil in Hk];
      first [compute_done | vm_compute in Hp; discriminate].
Defined.

Lemma fix_state_dict_round_trip_witness :
  fix_state_dict [("_orig_mod.tok_embeddings.weight", 1); ("_orig_mod.norm.weight", 3)]
  = Ok [("tok_embeddings.weight", 1); ("norm.weight", 3)].
Proof.
  apply (proj2 (fix_state_dict_round_trip
                  [("tok_embeddings.weight", 1); ("norm.weight", 3)]
                  ltac:(compute_done)
                  ltac:(intros k Hk; cbn [fmap list_fmap fst] in Hk;
                        repeat (apply elem_of_cons in Hk as [->|Hk]);
                        [..|by apply elem_of_nil in Hk]; reflexivity))).
Defined.

(** ** Cell 16 *)

Lemma py_slice_window {A : Type} (x : list A) (k : nat) (w : Z) :
  0 ≤ w →
  py_slice x (Z.of_nat k) (w + Z.of_nat k) = take (Z.to_nat w) (drop k x).
Proof.
  intros Hw. unfold py_slice, py_clamp. rewrite !decide_False by lia.
  destruct (decide (k ≤ length x)%nat) as [Hk|Hk].
  - rewrite (Z.min_l (Z.of_nat k)) by lia. rewrite Nat2Z.id.
    destruct (decide (w + Z.of_nat k ≤ Z.of_nat (length x))) as [Hh|Hh].
    + rewrite Z.min_l by lia. f_equal. lia.
    + rewrite Z.min_r by lia. rewrite !take_ge; [done|..];
        rewrite length_drop; lia.
  - rewrite !Z.min_r by lia. rewrite Z.sub_diag, Nat2Z.id. cbn.
    rewrite (drop_ge x k) by lia. by rewrite take_nil.
Qed.

(** X23. Cell 16, for any batch and any window size that is not
    negative: the slice it prints for [k = 1, 2, 3] is, row by row, the
    [window_size] tokens that follow the first [k]; a row too short for
    the window gives a shorter slice and no error.  When every row has
    [window_size + 3] tokens or more, all three slices have
    [window_size] columns. *)
Theorem cell16_windows (window_size : Z) (X : list (list Z)) :
  0 ≤ window_size →
  cell16 window_size X
  = (λ k, (λ x, take (Z.to_nat window_size) (drop k x)) <$> X) <$> [1; 2; 3]%nat ∧
  (Forall (λ x, window_size + 3 ≤ Z.of_nat (length x)) X →
   Forall (Forall (λ row, length row = Z.to_nat window_size)) (cell16 window_size X)).
Proof.
  intros Hw.
  assert (Heq : cell16 window_size X
    = (λ k, (λ x, take (Z.to_nat window_size) (drop k x)) <$> X) <$> [1; 2; 3]%nat).
  { assert (H : ∀ k : nat,
              (λ x, py_slice x (Z.of_nat k) (window_size + Z.of_nat k)) <$> X
              = (λ x, take (Z.to_nat window_size) (drop k x)) <$> X).
    { intros k. apply list_fmap_ext. intros _ x _. by apply py_slice_window. }
    unfold cell16. cbn [fmap list_fmap].
    rewrite <- (H 1%nat), <- (H 2%nat), <- (H 3%nat). reflexivity. }
  split; [exact Heq|]. intros Hlen. rewrite Heq.
  cbn [fmap list_fmap].
  repeat constructor; apply Forall_fmap; (eapply Forall_impl; [exact Hlen|]);
    cbn; intros x Hx; rewrite length_take, length_drop; lia.
Qed.

Lemma cell16_windows_witness :
  cell16 26 X_recorded
  = (λ k, (λ x, take 26 (drop k x)) <$> X_recorded) <$> [1; 2; 3]%nat.
Proof. apply (proj1 (cell16_windows 26 X_recorded ltac:(lia))). Defined.

Lemma fix_state_dict_entries_witness :
  ∃ d', fix_state_dict [("_orig_mod.w", 1); ("w", 2); ("b", 3)] = Ok d' ∧
        ("w", 1) ∈ d' ∧ ¬ ("w", 2) ∈ d' ∧ ("b", 3) ∈ d'.
Proof.
  eexists. split; [reflexivity|].
  pose proof (fix_state_dict_entries
                [("_orig_mod.w", 1); ("w", 2); ("b", 3)] _
                ltac:(compute_done)
                ltac:(intros k Hk Hp; cbn [fmap list_fmap fst] in Hk;
                      repeat (apply elem_of_cons in Hk as [->|Hk]);
                      [..|by apply elem_of_nil in Hk];
                      first [reflexivity | vm_compute in Hp; discriminate])
                eq_refl) as Hent.
  split; [|split].
  - apply Hent. left. apply elem_of_cons. by left.
  - intros Hin. apply Hent in Hin as [Hin|(_ & _ & Hnot)].
    + revert Hin. compute_done.
    + apply Hnot. compute_done.
  - apply Hent. right. split; [reflexivity|]. split; compute_done.
Defined.
